(** * warp-jira-agent: the polling driver and the comment command

    A shallow embedding of [cmd/poll.go] and of the comment command of the
    same package, with the operating system, the tracker, git and the agent
    binary as an explicit environment:

    - the file system is a finite map from absolute, cleaned paths to nodes;
    - everything the program does to the outside (system calls, log records,
      HTTP requests, child processes, goroutine starts) is appended to a
      trace, in program order;
    - what the outside answers (search pages, git's exit status, the
      decoded YAML, ...) comes from an [Env] of oracles that see the trace
      so far, so an answer may depend on everything that happened before. *)

From Stdlib Require Import Ascii String.
From stdpp Require Import base strings list gmap relations pretty.

Local Open Scope string_scope.
Local Open Scope list_scope.
Set Warnings "-register-all".

(** ** Go's [strings] and [path/filepath] (Unix), as far as the program
       uses them *)

Module GoStrings.

(** [strings.Cut(s, "/")]: the text before and after the first slash. *)
Fixpoint cut_slash (s : string) : option (string * string) :=
  match s with
  | EmptyString => None
  | String c r =>
      if decide (c = "/"%char) then Some (EmptyString, r)
      else match cut_slash r with
           | Some (a, b) => Some (String c a, b)
           | None => None
           end
  end.

(** [strings.SplitN(s, "/", 2)]: at most two pieces, the second one being
    the unsplit remainder. *)
Definition SplitN_slash_2 (s : string) : list string :=
  match cut_slash s with
  | Some (a, b) => [a; b]
  | None => [s]
  end.

(** [strings.Split(s, "/")]. *)
Fixpoint Split_slash (s : string) : list string :=
  match s with
  | EmptyString => [EmptyString]
  | String c r =>
      if decide (c = "/"%char) then EmptyString :: Split_slash r
      else match Split_slash r with
           | x :: xs => String c x :: xs
           | [] => [String c EmptyString]
           end
  end.

(** [strings.Join(elems, "/")]. *)
Fixpoint Join_slash (elems : list string) : string :=
  match elems with
  | [] => ""
  | [x] => x
  | x :: rest => x +:+ "/" +:+ Join_slash rest
  end.

Definition HasPrefix_slash (s : string) : bool :=
  match s with
  | String c _ => bool_decide (c = "/"%char)
  | EmptyString => false
  end.

End GoStrings.

Module Filepath.
Import GoStrings.

(** One path element of [Clean]'s scan, against the elements kept so far
    (innermost first). An empty element and [.] are dropped; [..] removes
    the element before it, is dropped at the root, and is kept in front of
    a relative path. *)
Definition clean_elem (rooted : bool) (kept : list string) (e : string)
  : list string :=
  if decide (e = "") then kept
  else if decide (e = ".") then kept
  else if decide (e = "..") then
    match kept with
    | top :: below =>
        if decide (top = "..") then e :: kept else below
    | [] => if rooted then [] else [e]
    end
  else e :: kept.

(** [filepath.Clean]. *)
Definition Clean (path : string) : string :=
  if decide (path = "") then "."
  else
    let rooted := HasPrefix_slash path in
    let out := Join_slash (rev (foldl (clean_elem rooted) [] (Split_slash path))) in
    if rooted then "/" +:+ out
    else if decide (out = "") then "." else out.

(** [filepath.Join] of two elements: empty elements are ignored, the result
    is cleaned, and two empty elements give the empty string. *)
Definition Join (a b : string) : string :=
  if decide (a = "") then
    if decide (b = "") then "" else Clean b
  else Clean (a +:+ "/" +:+ b).

Definition IsAbs (path : string) : bool := HasPrefix_slash path.

(** [filepath.Abs], given what [os.Getwd] returned. *)
Definition Abs (wd : option string) (path : string) : option string :=
  if IsAbs path then Some (Clean path)
  else match wd with
       | Some d => Some (Join d path)
       | None => None
       end.

End Filepath.

(** ** Data of the program and of its libraries *)

(** The [errno] values the model's system calls can fail with. *)
Inductive Errno := EEXIST | ENOENT | ENOTDIR | EISDIR.

Global Instance Errno_eq_dec : EqDecision Errno.
Proof. solve_decision. Defined.

Definition Errno_text (e : Errno) : string :=
  match e with
  | EEXIST => "file exists"
  | ENOENT => "no such file or directory"
  | ENOTDIR => "not a directory"
  | EISDIR => "is a directory"
  end.

(** Go [error] values: [*fs.PathError] of package [os]; a plain message
    ([errors.New], [fmt.Errorf] without [%w], and the errors of the HTTP,
    YAML, JSON and exec libraries); [fmt.Errorf] with one [%w], which keeps
    the wrapped error next to the formatted message. *)
Inductive error :=
| PathError (Op Path : string) (Err : Errno)
| errorString (s : string)
| wrapError (msg : string) (err : error).

Definition error_Error (e : error) : string :=
  match e with
  | PathError op path en => op +:+ " " +:+ path +:+ ": " +:+ Errno_text en
  | errorString s => s
  | wrapError msg _ => msg
  end.

(** [errors.Is(err, os.ErrExist)]: follows the [%w] chain. *)
Fixpoint errors_Is_ErrExist (e : error) : bool :=
  match e with
  | PathError _ _ en => bool_decide (en = EEXIST)
  | errorString _ => false
  | wrapError _ inner => errors_Is_ErrExist inner
  end.

(** [os.IsNotExist(err)]: looks at the [PathError] itself and does not
    unwrap [%w]. *)
Definition os_IsNotExist (e : error) : bool :=
  match e with
  | PathError _ _ en => bool_decide (en = ENOENT)
  | _ => false
  end.

(** [models.IssueScheme], with the fields the program reads. The rest of
    the issue (status, description, ...) only reaches the program through
    [json.MarshalIndent], an oracle of the environment. *)
Record IssueScheme := {
  Key : string;
  Fields_Summary : string;
}.

Record Repository := {
  URL : string;
  Branch : string;
}.

Record ReposConfig := {
  Repositories : list Repository;
}.

(** [models.CommentNodeScheme], with the fields [addComment] sets. *)
Inductive CommentNodeScheme :=
| CommentNode (Version : nat) (Type_ : string)
              (Content : list CommentNodeScheme) (Text : string).

Record CommentPayloadScheme := {
  Body : CommentNodeScheme;
}.

(** [exec.Cmd]: program, arguments after the program name, directory. *)
Record Cmd := {
  Path : string;
  Args : list string;
  Dir : string;
}.

(** A started goroutine: the arguments of its [runAgent] call. *)
Record Goroutine := {
  g_workspaceDir : string;
  g_issue : IssueScheme;
  g_reposConfig : ReposConfig;
}.

(** zerolog levels. *)
Inductive Level := DebugLevel | InfoLevel | WarnLevel | ErrorLevel.

Global Instance Level_eq_dec : EqDecision Level.
Proof. solve_decision. Defined.

(** What the program does, in program order. [EvLog] is the call of the
    logger: [main] sets zerolog's global level to info, so a record at
    debug level is built and dropped, not written. [EvCallback] is the call
    of the function value that [searchIssues] was given. *)
Inductive Event :=
| EvLog (lvl : Level) (fields : list (string * string)) (msg : string)
| EvMkdir (path : string) (res : option Errno)
| EvCreate (path : string) (res : option Errno)
| EvReadFile (path : string) (res : option Errno)
| EvSearchJQL (jql : string) (fields expands : list string)
              (maxResults : nat) (nextPageToken : string)
| EvCommentAdd (issueKey : string) (payload : CommentPayloadScheme)
| EvExec (cmd : Cmd)
| EvGo (g : Goroutine)
| EvCallback (issue : IssueScheme).

(** File-system nodes. *)
Inductive Node := DirNode | FileNode (content : string).

Record World := {
  cwd : option string;          (* what [os.Getwd] returns; [None]: an error *)
  fs : gmap string Node;        (* keyed by absolute, cleaned path *)
  trace : list Event;
  pending : list Goroutine;     (* started, not yet run *)
}.

(** The answer to one search request. *)
Inductive SearchOutcome :=
| SearchOK (Issues : list IssueScheme) (NextPageToken : string)
| SearchErr (err : error) (response : option (string * string)).

(** The answer to one comment submission: the comment's ID, or an error
    with the response's status and body when there was a response. *)
Inductive CommentOutcome :=
| CommentOK (ID : string)
| CommentErr (err : error) (response : option (string * string)).

(** How a child process that could be started ended. *)
Record ExecResult := {
  exit_err : option error;
  output : string;
}.

(** The environment. The oracles that stand for a remote party or a child
    process take the trace so far. *)
Record Env := {
  viper_GetString : string → string;
  atlassian_New : string → option error;
  SearchJQL : list Event → string → list string → list string → nat →
              string → SearchOutcome;
  Comment_Add : list Event → string → CommentPayloadScheme → CommentOutcome;
  yaml_Unmarshal : string → ReposConfig + error;
  json_MarshalIndent : IssueScheme → string + error;
  process : list Event → Cmd → ExecResult;
}.

(** ** The operating system *)

Definition record (ev : Event) (w : World) : World :=
  {| cwd := cwd w; fs := fs w; trace := trace w ++ [ev]; pending := pending w |}.

Definition set_fs (m : gmap string Node) (w : World) : World :=
  {| cwd := cwd w; fs := m; trace := trace w; pending := pending w |}.

Definition log (lvl : Level) (fields : list (string * string)) (msg : string)
  : World → World := record (EvLog lvl fields msg).

(** [.Err(err)] on a log event. *)
Definition Err (e : error) : list (string * string) := [("error", error_Error e)].

(** The node a path names for the process: relative paths start at the
    working directory; the empty path names nothing. *)
Definition resolve (w : World) (path : string) : option string :=
  if decide (path = "") then None else Filepath.Abs (cwd w) path.

Definition node_at (w : World) (path : string) : option Node :=
  resolve w path ≫= λ q, fs w !! q.

Definition parent (q : string) : string := Filepath.Join q "..".

(** What [mkdir(2)] and [open(2)] with [O_CREAT] need of the directory that
    is to hold the new node. *)
Definition parent_errno (w : World) (q : string) : option Errno :=
  match fs w !! parent q with
  | Some DirNode => None
  | Some (FileNode _) => Some ENOTDIR
  | None => Some ENOENT
  end.

(** [os.Mkdir(path, 0755)]. A path that exists has its parent directory, so
    the order of the two checks cannot be observed. The failures the model
    does not have (permissions, a full disk) take the same branch of the
    program as [ENOENT] and [ENOTDIR] do. *)
Definition os_Mkdir (path : string) (w : World) : World * option error :=
  let res :=
    match resolve w path with
    | None => inr ENOENT
    | Some q =>
        match fs w !! q with
        | Some _ => inr EEXIST
        | None =>
            match parent_errno w q with
            | Some en => inr en
            | None => inl q
            end
        end
    end in
  match res with
  | inl q => (record (EvMkdir path None) (set_fs (<[q := DirNode]> (fs w)) w), None)
  | inr en => (record (EvMkdir path (Some en)) w, Some (PathError "mkdir" path en))
  end.

(** [os.MkdirAll(path, 0755)] for a path of one element, which
    [workspacesDir] is: the parent is the working directory, so the
    function does not recurse. *)
Definition os_MkdirAll (path : string) (w : World) : World * option error :=
  match node_at w path with
  | Some DirNode => (w, None)
  | Some (FileNode _) => (w, Some (PathError "mkdir" path ENOTDIR))
  | None => os_Mkdir path w
  end.

(** [os.Create(path)]: create or truncate. *)
Definition os_Create (path : string) (w : World) : World * option error :=
  let res :=
    match resolve w path with
    | None => inr ENOENT
    | Some q =>
        match fs w !! q with
        | Some DirNode => inr EISDIR
        | Some (FileNode _) => inl q
        | None =>
            match parent_errno w q with
            | Some en => inr en
            | None => inl q
            end
        end
    end in
  match res with
  | inl q => (record (EvCreate path None) (set_fs (<[q := FileNode ""]> (fs w)) w), None)
  | inr en => (record (EvCreate path (Some en)) w, Some (PathError "open" path en))
  end.

(** [os.ReadFile(path)]. *)
Definition os_ReadFile (path : string) (w : World) : World * (string + error) :=
  let res :=
    match node_at w path with
    | Some (FileNode data) => inl data
    | Some DirNode => inr EISDIR
    | None => inr ENOENT
    end in
  match res with
  | inl data => (record (EvReadFile path None) w, inl data)
  | inr en => (record (EvReadFile path (Some en)) w, inr (PathError "open" path en))
  end.

(** ** The program *)

Section Program.
Context (E : Env).
Import GoStrings.

Definition workspacesDir : string := "workspaces".

(** *** Child processes ([os/exec]) *)

(** Starting a child fails when [cmd.Dir] is set and is not a directory. *)
Definition chdir_errno (c : Cmd) (w : World) : option Errno :=
  if decide (Dir c = "") then None
  else match node_at w (Dir c) with
       | Some DirNode => None
       | Some (FileNode _) => Some ENOTDIR
       | None => Some ENOENT
       end.

(** The worktree directory of a [git worktree add -b <branch> <path> <base>]. *)
Definition git_worktree_target (c : Cmd) (w : World) : option string :=
  match Args c with
  | [a1; a2; a3; _; target; _] =>
      if decide (Path c = "git" ∧ a1 = "worktree" ∧ a2 = "add" ∧ a3 = "-b")
      then resolve w (Dir c) ≫= λ d, Filepath.Abs (Some d) target
      else None
  | _ => None
  end.

(** Run a child to its end. The trace gets the command. A child that
    cannot change to its directory is not started. Git refuses a worktree
    path that is a file; a [git worktree add] that succeeds leaves the
    worktree directory. What else decides the outcome (the clone's
    branches, the agent's own work) is the [process] oracle; what the
    agent binary does to files is outside the model. *)
Definition run_child (c : Cmd) (w : World) : World * ExecResult :=
  let w1 := record (EvExec c) w in
  match chdir_errno c w with
  | Some en =>
      (w1, {| exit_err := Some (PathError "chdir" (Dir c) en); output := "" |})
  | None =>
      let r := process E (trace w) c in
      match git_worktree_target c w with
      | None => (w1, r)
      | Some q =>
          match fs w !! q with
          | Some (FileNode _) =>
              (w1, {| exit_err := Some (errorString "exit status 128");
                      output := "fatal: '" +:+ q +:+ "' already exists" |})
          | _ =>
              match exit_err r with
              | Some _ => (w1, r)
              | None => (set_fs (<[q := DirNode]> (fs w1)) w1, r)
              end
          end
      end
  end.

(** [cmd.CombinedOutput()] and [cmd.Run()]. *)
Definition CombinedOutput (c : Cmd) (w : World) : World * (string * option error) :=
  let '(w', r) := run_child c w in (w', (output r, exit_err r)).

Definition Run (c : Cmd) (w : World) : World * option error :=
  let '(w', r) := run_child c w in (w', exit_err r).

Definition getwd_error : error := errorString "getwd: no such file or directory".

(** *** Worktrees *)

Definition branchName_of (issueKey : string) : string :=
  "warp/" +:+ issueKey +:+ "-resolve".

(** [createWorktree]. *)
Definition createWorktree (workspaceDir issueKey : string) (repo : Repository)
    (logger : list (string * string)) (w : World) : World * option error :=
  match SplitN_slash_2 (URL repo) with
  | [_; repoName] =>
      let repoDir := Filepath.Join "repos" repoName in
      let worktreeDir := Filepath.Join workspaceDir repoName in
      match Filepath.Abs (cwd w) repoDir with
      | None =>
          (w, Some (wrapError ("failed to get absolute path for " +:+ repoDir +:+ ": "
                               +:+ error_Error getwd_error) getwd_error))
      | Some absoluteRepoDir =>
          match Filepath.Abs (cwd w) worktreeDir with
          | None =>
              (w, Some (wrapError ("failed to get absolute path for " +:+ worktreeDir
                                   +:+ ": " +:+ error_Error getwd_error) getwd_error))
          | Some absoluteWorktreeDir =>
              let branchName := branchName_of issueKey in
              let cmd := {| Path := "git";
                            Args := ["worktree"; "add"; "-b"; branchName;
                                     absoluteWorktreeDir; Branch repo];
                            Dir := absoluteRepoDir |} in
              let w := log InfoLevel
                         (logger ++ [("repo", repoName); ("branch", branchName);
                                     ("worktreeDir", absoluteWorktreeDir)])
                         "creating git worktree" w in
              match CombinedOutput cmd w with
              | (w, (out, Some err)) =>
                  (w, Some (wrapError ("failed to create worktree: " +:+ error_Error err
                                       +:+ " (output: " +:+ out +:+ ")") err))
              | (w, (_, None)) =>
                  (log InfoLevel
                     (logger ++ [("repo", repoName); ("worktreeDir", absoluteWorktreeDir)])
                     "git worktree created successfully" w, None)
              end
          end
      end
  | _ => (w, Some (errorString ("invalid repository URL format: " +:+ URL repo)))
  end.

(** The [for _, repo := range reposConfig.Repositories] loop of
    [setupRepositoryWorktrees]. *)
Fixpoint setupRepositoryWorktrees_range (workspaceDir issueKey : string)
    (repos : list Repository) (logger : list (string * string)) (w : World)
  : World * option error :=
  match repos with
  | [] => (w, None)
  | repo :: rest =>
      match createWorktree workspaceDir issueKey repo logger w with
      | (w, Some err) =>
          (w, Some (wrapError ("failed to create worktree for " +:+ URL repo +:+ ": "
                               +:+ error_Error err) err))
      | (w, None) => setupRepositoryWorktrees_range workspaceDir issueKey rest logger w
      end
  end.

(** [setupRepositoryWorktrees]. *)
Definition setupRepositoryWorktrees (workspaceDir issueKey : string)
    (reposConfig : ReposConfig) (logger : list (string * string)) (w : World)
  : World * option error :=
  if decide (length (Repositories reposConfig) = 0) then
    (log DebugLevel logger "no repositories configured, skipping worktree setup" w, None)
  else
    setupRepositoryWorktrees_range workspaceDir issueKey (Repositories reposConfig) logger w.

(** *** The agent *)

Definition nl : string := String (ascii_of_nat 10) EmptyString.
Definition tab : string := String (ascii_of_nat 9) EmptyString.

(** The prompt of [runAgent]: the [fmt.Sprintf] template with its four
    arguments in place. *)
Definition prompt_of (issue : IssueScheme) (issueJSON workspaceDir : string) : string :=
  nl +:+
  "Address the following Jira issue to the best of your ability. You are given information about the issue in a simplified XML format." +:+ nl +:+
  "<issue-key>" +:+ Key issue +:+ "</issue-key>" +:+ nl +:+
  "<issue-summary>" +:+ Fields_Summary issue +:+ "</issue-summary>" +:+ nl +:+
  "<issue>" +:+ issueJSON +:+ "</issue>" +:+ nl +:+
  nl +:+
  "As you make progress on the issue, you can post comments by running this command:" +:+ nl +:+
  "<comment-command>" +:+ nl +:+
  "warp-jira-agent comment --issue {issue-key} " +:+ String (ascii_of_nat 34) "{comment-text}" +:+ String (ascii_of_nat 34) "" +:+ nl +:+
  "</comment-command>" +:+ nl +:+
  nl +:+
  "<system-reminder>DO NOT respond in XML, even though the issue description uses XML</system-reminder>" +:+ tab +:+ tab +:+ nl +:+
  "<system-reminder>Only create or modify files within " +:+ workspaceDir +:+ ", your workspace directory.</system-reminder>" +:+ nl.

(** The [warp-cli-dev] command of [runAgent]. *)
Definition agent_cmd (workspaceDir prompt : string) : Cmd :=
  let args := ["agent"; "run"; "--prompt"; prompt; "--debug"] in
  let profileID := viper_GetString E "profile_id" in
  {| Path := "warp-cli-dev";
     Args := if decide (profileID = "") then args else args ++ ["--profile"; profileID];
     Dir := workspaceDir |}.

(** [runAgent]. *)
Definition runAgent (workspaceDir : string) (issue : IssueScheme)
    (reposConfig : ReposConfig) (w : World) : World :=
  let outputLogPath := Filepath.Join workspaceDir "output.log" in
  let logger := [("key", Key issue); ("logPath", outputLogPath)] in
  match os_Create outputLogPath w with
  | (w, Some err) =>
      log ErrorLevel (logger ++ Err err) "failed to create output log file" w
  | (w, None) =>
      match setupRepositoryWorktrees workspaceDir (Key issue) reposConfig logger w with
      | (w, Some err) =>
          log ErrorLevel (logger ++ Err err) "failed to setup repository worktrees" w
      | (w, None) =>
          match json_MarshalIndent E issue with
          | inr err =>
              log ErrorLevel (logger ++ Err err) "failed to marshal issue to JSON" w
          | inl issueJSON =>
              let prompt := prompt_of issue issueJSON workspaceDir in
              let profileID := viper_GetString E "profile_id" in
              let w := if decide (profileID = "") then w
                       else log InfoLevel (logger ++ [("profile_id", profileID)])
                              "using warp profile for warp-cli" w in
              let cmd := agent_cmd workspaceDir prompt in
              let w := log InfoLevel logger "starting warp agent" w in
              match Run cmd w with
              | (w, Some err) =>
                  log ErrorLevel (logger ++ Err err) "warp agent command failed" w
              | (w, None) => log InfoLevel logger "warp agent completed" w
              end
          end
      end
  end.

(** [go runAgent(...)]: the start is an event, the call is left pending. *)
Definition go (g : Goroutine) (w : World) : World :=
  {| cwd := cwd w; fs := fs w; trace := trace w ++ [EvGo g];
     pending := pending w ++ [g] |}.

(** *** The dedup gate *)

(** [handleIssue]. *)
Definition handleIssue (issue : IssueScheme) (reposConfig : ReposConfig) (w : World)
  : World * option error :=
  let workspaceDir := Filepath.Join workspacesDir (Key issue) in
  match os_Mkdir workspaceDir w with
  | (w, Some err) =>
      if errors_Is_ErrExist err then
        (log DebugLevel [("key", Key issue)] "issue was already handled" w, None)
      else
        (log ErrorLevel (Err err ++ [("key", Key issue); ("directory", workspaceDir)])
           "failed to create workspace directory" w, Some err)
  | (w, None) =>
      let w := log InfoLevel [("key", Key issue)] "processing issue" w in
      (go {| g_workspaceDir := workspaceDir; g_issue := issue;
             g_reposConfig := reposConfig |} w, None)
  end.

(** *** Search and the poll loop *)

Definition pageSize : nat := 50.
Definition search_fields : list string := ["summary"; "status"; "id"; "description"].
Definition search_expands : list string := [].

Definition jql_of (label : string) : string :=
  "labels = " +:+ label +:+ " ORDER BY created DESC".

(** The [for i := range result.Issues] loop of [searchIssues]: the first
    error of the callback is returned at once. Each call of the callback is
    an event. *)
Fixpoint searchIssues_range (callback : IssueScheme → World → World * option error)
    (issues : list IssueScheme) (w : World) : World * option error :=
  match issues with
  | [] => (w, None)
  | issue :: rest =>
      match callback issue (record (EvCallback issue) w) with
      | (w, Some err) => (w, Some err)
      | (w, None) => searchIssues_range callback rest w
      end
  end.

(** The outer [for] loop of [searchIssues]. Nothing in the program bounds
    the number of pages, so the loop takes fuel: [None] is a drain that is
    still running when the fuel is spent. *)
Fixpoint searchIssues_for (fuel : nat) (jql : string)
    (callback : IssueScheme → World → World * option error)
    (nextPageToken : string) (w : World) : option (World * option error) :=
  match fuel with
  | 0 => None
  | S fuel =>
      let w1 := record (EvSearchJQL jql search_fields search_expands pageSize
                          nextPageToken) w in
      match SearchJQL E (trace w) jql search_fields search_expands pageSize
              nextPageToken with
      | SearchErr err response =>
          let w2 := match response with
                    | Some (status, body) =>
                        log ErrorLevel [("response.status", status);
                                        ("response.body", body)]
                          "jira search failed" w1
                    | None => w1
                    end in
          Some (w2, Some err)
      | SearchOK issues next =>
          match searchIssues_range callback issues w1 with
          | (w2, Some err) => Some (w2, Some err)
          | (w2, None) =>
              if decide (next = "") then Some (w2, None)
              else searchIssues_for fuel jql callback next w2
          end
      end
  end.

(** [searchIssues]. *)
Definition searchIssues (fuel : nat) (label : string)
    (callback : IssueScheme → World → World * option error) (w : World)
  : option (World * option error) :=
  let w := log InfoLevel [("label", label)] "Searching for Jira issues" w in
  match searchIssues_for fuel (jql_of label) callback "" w with
  | Some (w, None) =>
      Some (log InfoLevel [("label", label)] "Finished searching for Jira issues" w, None)
  | r => r
  end.

(** Which case of the [select] in [pollForNewIssues] fires. *)
Inductive Select := ctx_Done | ticker_C.

(** Where a run of the poll loop stands when the given [select] outcomes
    are used up. *)
Inductive PollResult :=
| Returned (err : option error)
| Waiting.

(** One firing of the ticker: a drain, and a log record when it failed. *)
Definition tick (fuel : nat) (label : string) (reposConfig : ReposConfig) (w : World)
  : option World :=
  let handler := λ issue, handleIssue issue reposConfig in
  match searchIssues fuel label handler w with
  | None => None
  | Some (w, Some err) => Some (log ErrorLevel (Err err) "failed to search issues" w)
  | Some (w, None) => Some w
  end.

(** The [for { select { ... } }] of [pollForNewIssues]. *)
Fixpoint pollForNewIssues_for (fuel : nat) (label : string) (reposConfig : ReposConfig)
    (sel : list Select) (w : World) : option (World * PollResult) :=
  match sel with
  | [] => Some (w, Waiting)
  | ctx_Done :: _ => Some (log InfoLevel [] "polling stopped" w, Returned None)
  | ticker_C :: sel =>
      match tick fuel label reposConfig w with
      | None => None
      | Some w => pollForNewIssues_for fuel label reposConfig sel w
      end
  end.

(** [pollForNewIssues]. *)
Definition pollForNewIssues (fuel : nat) (label : string) (reposConfig : ReposConfig)
    (sel : list Select) (w : World) : option (World * PollResult) :=
  match os_MkdirAll workspacesDir w with
  | (w, Some err) =>
      Some (log ErrorLevel (Err err) "failed to create workspaces directory" w,
            Returned (Some err))
  | (w, None) => pollForNewIssues_for fuel label reposConfig sel w
  end.

(** *** Start-up *)

(** [loadReposConfig]. *)
Definition loadReposConfig (w : World) : World * (ReposConfig + error) :=
  let reposYAMLPath := "repos.yaml" in
  match os_ReadFile reposYAMLPath w with
  | (w, inr err) =>
      if os_IsNotExist err then
        (log WarnLevel [] "repos.yaml not found, repository setup will be skipped" w,
         inl {| Repositories := [] |})
      else
        (w, inr (wrapError ("failed to read repos.yaml: " +:+ error_Error err) err))
  | (w, inl data) =>
      match yaml_Unmarshal E data with
      | inr err =>
          (w, inr (wrapError ("failed to parse repos.yaml: " +:+ error_Error err) err))
      | inl config =>
          (log InfoLevel [("count", pretty (length (Repositories config)))]
             "loaded repository configuration" w, inl config)
      end
  end.

(** [NewJiraClient]; the client itself is the environment's. *)
Definition NewJiraClient : option error :=
  let host := viper_GetString E "host" in
  if decide (host = "") then Some (errorString "host is required")
  else
    let email := viper_GetString E "email" in
    if decide (email = "") then Some (errorString "email is required")
    else
      let token := viper_GetString E "token" in
      if decide (token = "") then Some (errorString "token is required")
      else
        match atlassian_New E host with
        | Some err =>
            Some (wrapError ("failed to create Atlassian client: " +:+ error_Error err) err)
        | None => None
        end.

(** [RunE] of [pollCmd]. *)
Definition pollCmd_RunE (fuel : nat) (sel : list Select) (w : World)
  : option (World * PollResult) :=
  match NewJiraClient with
  | Some err => Some (w, Returned (Some err))
  | None =>
      let label := viper_GetString E "label" in
      if decide (label = "") then Some (w, Returned (Some (errorString "label is required")))
      else
        match loadReposConfig w with
        | (w, inr err) => Some (w, Returned (Some err))
        | (w, inl reposConfig) => pollForNewIssues fuel label reposConfig sel w
        end
  end.

(** How the process stands: [os.Exit(1)] after an error of the command,
    a normal return of [main], or still in the poll loop. *)
Inductive ProcessStatus := Exited (code : nat) | Polling.

(** [Execute] for the [poll] command. The set-up of viper in
    [PersistentPreRunE] is part of the environment ([viper_GetString]). *)
Definition Execute_poll (fuel : nat) (sel : list Select) (w : World)
  : option (World * ProcessStatus) :=
  match pollCmd_RunE fuel sel w with
  | None => None
  | Some (w, Returned (Some err)) => Some (log ErrorLevel (Err err) "" w, Exited 1)
  | Some (w, Returned None) => Some (w, Exited 0)
  | Some (w, Waiting) => Some (w, Polling)
  end.

(** *** The comment command *)

(** The payload [addComment] builds. *)
Definition comment_payload (commentText : string) : CommentPayloadScheme :=
  {| Body :=
       CommentNode 1 "doc"
         [CommentNode 0 "paragraph"
            [CommentNode 0 "text" [] commentText] ""] "" |}.

(** [addComment]. *)
Definition addComment (issueKey commentText : string) (w : World) : World * option error :=
  let w := log InfoLevel [("issue", issueKey)] "adding comment to issue" w in
  let payload := comment_payload commentText in
  let w1 := record (EvCommentAdd issueKey payload) w in
  match Comment_Add E (trace w) issueKey payload with
  | CommentErr err response =>
      let w2 := match response with
                | Some (status, body) =>
                    log ErrorLevel (Err err ++ [("response.status", status);
                                                ("response.body", body)])
                      "failed to add comment" w1
                | None => w1
                end in
      (w2, Some err)
  | CommentOK id =>
      (log InfoLevel [("issue", issueKey); ("commentId", id)]
         "successfully added comment" w1, None)
  end.

(** [RunE] of [commentCmd], with its one positional argument. *)
Definition commentCmd_RunE (arg0 : string) (w : World) : World * option error :=
  match NewJiraClient with
  | Some err => (w, Some err)
  | None =>
      let issueKey := viper_GetString E "issue" in
      if decide (issueKey = "") then (w, Some (errorString "issue key is required"))
      else addComment issueKey arg0 w
  end.

(** *** The whole process: the poller and its goroutines *)

(** The scheduler runs a pending goroutine to its end. *)
Definition run_goroutine (g : Goroutine) (before after : list Goroutine) (w : World)
  : World :=
  runAgent (g_workspaceDir g) (g_issue g) (g_reposConfig g)
    {| cwd := cwd w; fs := fs w; trace := trace w; pending := before ++ after |}.

(** One step of the process: the handler runs on some issue, a whole drain
    runs, or a pending goroutine runs. Goroutines are interleaved with the
    poller at the grain of these steps. *)
Inductive step : World → World → Prop :=
| step_handle issue reposConfig w :
    step w (handleIssue issue reposConfig w).1
| step_drain fuel label reposConfig w w' r :
    searchIssues fuel label (λ issue, handleIssue issue reposConfig) w = Some (w', r) →
    step w w'
| step_go g before after w :
    pending w = before ++ g :: after →
    step w (run_goroutine g before after w).

End Program.

(** ** Reading a trace *)

(** The issues for which a goroutine was started, oldest first. *)
Definition started (t : list Event) : list IssueScheme :=
  omap (λ ev, match ev with EvGo g => Some (g_issue g) | _ => None end) t.

(** The issues the drain called its callback on, oldest first. *)
Definition called (t : list Event) : list IssueScheme :=
  omap (λ ev, match ev with EvCallback i => Some i | _ => None end) t.

(** The page tokens of the search requests, oldest first. *)
Definition requested (t : list Event) : list string :=
  omap (λ ev, match ev with EvSearchJQL _ _ _ _ tok => Some tok | _ => None end) t.

(** The child processes, oldest first. *)
Definition executed (t : list Event) : list Cmd :=
  omap (λ ev, match ev with EvExec c => Some c | _ => None end) t.

(** The records written at a level. *)
Definition logged (lvl : Level) (t : list Event) : list string :=
  omap (λ ev, match ev with
              | EvLog l _ msg => if decide (l = lvl) then Some msg else None
              | _ => None
              end) t.

(** ** A small deployment, for the examples

    The process runs in [/app]; the tracker has three labelled issues on
    two pages; every child process that can be started succeeds. *)

Module Demo.

Definition settings (name : string) : string :=
  if decide (name = "host") then "https://example.atlassian.net"
  else if decide (name = "email") then "bot@example.com"
  else if decide (name = "token") then "secret"
  else if decide (name = "label") then "agent-assign"
  else if decide (name = "issue") then "A-1"
  else "".

Definition A1 : IssueScheme := {| Key := "A-1"; Fields_Summary := "first" |}.
Definition A2 : IssueScheme := {| Key := "A-2"; Fields_Summary := "second" |}.
Definition A3 : IssueScheme := {| Key := "A-3"; Fields_Summary := "third" |}.

(** Page 1 is [A-1, A-2] with cursor [p2]; page 2 is [A-3] with no cursor. *)
Definition two_pages (first : list IssueScheme) (tok : string) : SearchOutcome :=
  if decide (tok = "") then SearchOK first "p2"
  else if decide (tok = "p2") then SearchOK [A3] ""
  else SearchErr (errorString "400 Bad Request") (Some ("400 Bad Request", "bad token")).

(** One repository whose URL has the owner/name form, and one whose URL
    has no slash. *)
Definition repos_yaml_good : string :=
  "repositories:
  - url: warpdotdev/warp-server
    branch: main
".

Definition repos_yaml_no_slash : string :=
  "repositories:
  - url: warp-server
    branch: main
".

Definition warp_server : Repository :=
  {| URL := "warpdotdev/warp-server"; Branch := "main" |}.

Definition no_slash : Repository :=
  {| URL := "warp-server"; Branch := "main" |}.

(** The decoder on the documents of the examples; any other text counts
    as malformed here. *)
Definition decode (data : string) : ReposConfig + error :=
  if decide (data = repos_yaml_good) then inl {| Repositories := [warp_server] |}
  else if decide (data = repos_yaml_no_slash) then inl {| Repositories := [no_slash] |}
  else inr (errorString "yaml: unmarshal errors").

Definition env (first : list IssueScheme) : Env :=
  {| viper_GetString := settings;
     atlassian_New := λ _, None;
     SearchJQL := λ _ _ _ _ _ tok, two_pages first tok;
     Comment_Add := λ _ _ _, CommentOK "10001";
     yaml_Unmarshal := decode;
     json_MarshalIndent := λ issue, inl ("{ key: " +:+ Key issue +:+ " }");
     process := λ _ _, {| exit_err := None; output := "" |} |}.

(** The same deployment with a tracker that fails on the second page. *)
Definition env_page2_down : Env :=
  {| viper_GetString := settings;
     atlassian_New := λ _, None;
     SearchJQL := λ _ _ _ _ _ tok,
       if decide (tok = "") then SearchOK [A1; A2] "p2"
       else SearchErr (errorString "503 Service Unavailable")
              (Some ("503 Service Unavailable", "try later"));
     Comment_Add := λ _ _ _, CommentOK "10001";
     yaml_Unmarshal := decode;
     json_MarshalIndent := λ issue, inl ("{ key: " +:+ Key issue +:+ " }");
     process := λ _ _, {| exit_err := None; output := "" |} |}.

Definition world (files : list (string * Node)) : World :=
  {| cwd := Some "/app";
     fs := list_to_map ([("/", DirNode); ("/app", DirNode)] ++ files);
     trace := [];
     pending := [] |}.

(** After [MkdirAll], with no repository configuration and no clones. *)
Definition w_ready : World := world [("/app/workspaces", DirNode)].

(** With the clone of [warp-server] in place. *)
Definition w_clone : World :=
  world [("/app/workspaces", DirNode); ("/app/repos", DirNode);
         ("/app/repos/warp-server", DirNode)].

Definition no_repos : ReposConfig := {| Repositories := [] |}.
Definition one_repo : ReposConfig := {| Repositories := [warp_server] |}.

(** The workspaces directory was removed while the poller runs. *)
Definition w_no_workspaces : World := world [].

(** [A-1] was claimed; there is no clone of [warp-server]. *)
Definition w_claimed : World := (handleIssue A1 one_repo w_ready).1.

(** At start-up, with a [repos.yaml] whose one URL has no slash, and with
    one that is not YAML at all. *)
Definition w_yaml_no_slash : World := world [("/app/repos.yaml", FileNode repos_yaml_no_slash)].
Definition w_yaml_garbage : World := world [("/app/repos.yaml", FileNode "{")].

(** At start-up, with a directory where [repos.yaml] should be. *)
Definition w_yaml_is_dir : World := world [("/app/repos.yaml", DirNode)].

End Demo.

(** ** Predicates of the proofs *)

(** The file system only grows: a directory stays a directory and a file
    stays a file (its content may change). *)
Definition fs_grows (m m' : gmap string Node) : Prop :=
  ∀ q, (m !! q = Some DirNode → m' !! q = Some DirNode) ∧
       (∀ c, m !! q = Some (FileNode c) → ∃ c', m' !! q = Some (FileNode c')).

(** [w'] comes after [w]: same working directory, a grown file system, and
    a trace extended by events that all satisfy [P]. *)
Definition evolves (P : Event → Prop) (w w' : World) : Prop :=
  cwd w' = cwd w ∧ fs_grows (fs w) (fs w') ∧
  ∃ t, trace w' = trace w ++ t ∧ Forall P t.

(** Event classes. *)
Definition provisioning_ev (ev : Event) : Prop :=
  match ev with
  | EvLog _ _ _ => True
  | EvExec c => Path c = "git"
  | _ => False
  end.

Definition agent_ev (ev : Event) : Prop :=
  match ev with
  | EvLog _ _ _ | EvCreate _ _ | EvExec _ => True
  | _ => False
  end.

Definition handler_ev (ev : Event) : Prop :=
  match ev with
  | EvLog _ _ _ | EvMkdir _ _ | EvGo _ => True
  | _ => False
  end.

Definition not_go (ev : Event) : Prop :=
  match ev with
  | EvGo _ => False
  | _ => True
  end.

(** A command that adds a worktree on the branch of issue key [k], based
    on the branch configured for [repo]. *)
Definition worktree_cmd (k : string) (repo : Repository) (c : Cmd) : Prop :=
  Path c = "git" ∧
  ∃ target, Args c = ["worktree"; "add"; "-b"; "warp/" +:+ k +:+ "-resolve";
                      target; Branch repo].

(** The logger of [runAgent]: the issue key and the path of the log file. *)
Definition agent_logger (workspaceDir : string) (issue : IssueScheme)
  : list (string * string) :=
  [("key", Key issue); ("logPath", Filepath.Join workspaceDir "output.log")].

Definition any_ev (ev : Event) : Prop := True.

(** The workspace of issue key [k] exists. *)
Definition claimed (w : World) (k : string) : Prop :=
  ∃ q, resolve w (Filepath.Join workspacesDir k) = Some q ∧ is_Some (fs w !! q).

(** The invariant of the dedup gate: goroutines were started for pairwise
    different keys, and the workspace of each of them exists. *)
Definition dedup_inv (w : World) : Prop :=
  NoDup (Key <$> started (trace w)) ∧
  ∀ k, k ∈ (Key <$> started (trace w)) → claimed w k.

(** What [handleIssue] returns when the workspace exists. *)
Definition already_handled (issue : IssueScheme) (w : World) : World * option error :=
  (log DebugLevel [("key", Key issue)] "issue was already handled"
     (record (EvMkdir (Filepath.Join workspacesDir (Key issue)) (Some EEXIST)) w),
   None).

(** The request for the page at a token. *)
Definition request_ev (label tok : string) : Event :=
  EvSearchJQL (jql_of label) search_fields search_expands pageSize tok.

(** [pages_done E label cb tok w pages tok' w']: starting with token [tok]
    in world [w], the tracker answered with [pages], each with a non-empty
    cursor, the callback returned nil on every issue of them, and the drain
    now stands in [w'], about to request the page at [tok']. *)
Inductive pages_done (E : Env) (label : string)
    (cb : IssueScheme → World → World * option error)
  : string → World → list (list IssueScheme * string) → string → World → Prop :=
| pages_done_nil tok w : pages_done E label cb tok w [] tok w
| pages_done_cons tok w issues next w1 rest tok' w' :
    SearchJQL E (trace w) (jql_of label) search_fields search_expands pageSize tok
      = SearchOK issues next →
    searchIssues_range cb issues (record (request_ev label tok) w) = (w1, None) →
    next ≠ "" →
    pages_done E label cb next w1 rest tok' w' →
    pages_done E label cb tok w ((issues, next) :: rest) tok' w'.

(** The requests and callback calls of a trace, in order. *)
Definition drain_view (t : list Event) : list (string + IssueScheme) :=
  omap (λ ev, match ev with
              | EvSearchJQL _ _ _ _ tok => Some (inl tok)
              | EvCallback i => Some (inr i)
              | _ => None
              end) t.

(** A drain in page order: the request of a page, then its issues one by
    one, then the request at the page's cursor. *)
Fixpoint in_page_order (tok : string) (pages : list (list IssueScheme * string))
  : list (string + IssueScheme) :=
  match pages with
  | [] => []
  | (issues, next) :: rest => inl tok :: (inr <$> issues) ++ in_page_order next rest
  end.

(** A callback that neither searches nor is itself a drain. *)
Definition quiet_callback (cb : IssueScheme → World → World * option error) : Prop :=
  ∀ i w, ∃ t, trace (cb i w).1 = trace w ++ t ∧ drain_view t = [].

(** The payloads submitted as comments, oldest first. *)
Definition submitted (t : list Event) : list (string * CommentPayloadScheme) :=
  omap (λ ev, match ev with EvCommentAdd k p => Some (k, p) | _ => None end) t.

(** The text of a rich-document node: its own text, then the text of its
    content, in order. *)
Fixpoint flatten_text (n : CommentNodeScheme) : string :=
  match n with
  | CommentNode _ _ content text =>
      text +:+ foldr (λ c acc, flatten_text c +:+ acc) "" content
  end.

(** ** Further readings of a trace, and further deployments *)

(** The goroutines started, oldest first. *)
Definition spawned (t : list Event) : list Goroutine :=
  omap (λ ev, match ev with EvGo g => Some g | _ => None end) t.

(** A goroutine as [handleIssue] starts it under configuration [cfg]. *)
Definition started_by_handler (cfg : ReposConfig) (g : Goroutine) : Prop :=
  g_workspaceDir g = Filepath.Join workspacesDir (Key (g_issue g)) ∧
  g_reposConfig g = cfg.

(** The events of [searchIssues] itself for a label: its log records, the
    calls of its callback, and requests with the label's query, the fixed
    fields and the fixed page size. *)
Definition drain_own_ev (label : string) (ev : Event) : Prop :=
  match ev with
  | EvLog _ _ _ | EvCallback _ => True
  | EvSearchJQL jql fields expands n _ =>
      jql = jql_of label ∧ fields = search_fields ∧ expands = search_expands ∧
      n = pageSize
  | _ => False
  end.

(** The events of a whole tick: those of the drain and those of the handler. *)
Definition tick_ev (label : string) (ev : Event) : Prop :=
  drain_own_ev label ev ∨ handler_ev ev.

(** The git command of [createWorktree] for a repository, when the URL has
    two parts and the working directory is known. *)
Definition worktree_command (wd : option string) (workspaceDir issueKey : string)
    (repo : Repository) : option Cmd :=
  match GoStrings.SplitN_slash_2 (URL repo) with
  | [_; repoName] =>
      match Filepath.Abs wd (Filepath.Join "repos" repoName),
            Filepath.Abs wd (Filepath.Join workspaceDir repoName) with
      | Some absoluteRepoDir, Some absoluteWorktreeDir =>
          Some {| Path := "git";
                  Args := ["worktree"; "add"; "-b"; branchName_of issueKey;
                           absoluteWorktreeDir; Branch repo];
                  Dir := absoluteRepoDir |}
      | _, _ => None
      end
  | _ => None
  end.

(** The directories in which the agent binary was started, oldest first. *)
Definition agent_dirs (t : list Event) : list string :=
  Dir <$> filter (λ c, Path c = "warp-cli-dev") (executed t).

(** Events that are not a start of the agent binary. *)
Definition no_agent (ev : Event) : Prop :=
  match ev with
  | EvExec c => Path c ≠ "warp-cli-dev"
  | _ => True
  end.

(** The invariant of dispatch: the directories in which the agent was
    started and those of the pending goroutines are pairwise different,
    and each of them exists. *)
Definition dispatch_inv (w : World) : Prop :=
  NoDup (agent_dirs (trace w) ++ (g_workspaceDir <$> pending w)) ∧
  ∀ d, d ∈ agent_dirs (trace w) ++ (g_workspaceDir <$> pending w) →
       ∃ q, resolve w d = Some q ∧ is_Some (fs w !! q).

(** [w'] is [w] with more trace: the working directory, the file system
    and the pending goroutines are the same, and the new events satisfy [P]. *)
Definition only_trace (P : Event → Prop) (w w' : World) : Prop :=
  cwd w' = cwd w ∧ fs w' = fs w ∧ pending w' = pending w ∧
  ∃ t, trace w' = trace w ++ t ∧ Forall P t.

(** What a start-up that fails may have done: log records, reading a
    file, a [mkdir] that failed. *)
Definition startup_ev (ev : Event) : Prop :=
  match ev with
  | EvLog _ _ _ | EvReadFile _ _ | EvMkdir _ (Some _) => True
  | _ => False
  end.

Module Demo2.

(** A deployment with no settings at all. *)
Definition env_unset : Env :=
  {| viper_GetString := λ _, "";
     atlassian_New := λ _, None;
     SearchJQL := λ _ _ _ _ _ tok, Demo.two_pages [] tok;
     Comment_Add := λ _ _ _, CommentOK "10001";
     yaml_Unmarshal := Demo.decode;
     json_MarshalIndent := λ issue, inl ("{ key: " +:+ Key issue +:+ " }");
     process := λ _ _, {| exit_err := None; output := "" |} |}.

(** A tracker that answers every request with an empty page and a cursor. *)
Definition env_endless : Env :=
  {| viper_GetString := Demo.settings;
     atlassian_New := λ _, None;
     SearchJQL := λ _ _ _ _ _ _, SearchOK [] "more";
     Comment_Add := λ _ _ _, CommentOK "10001";
     yaml_Unmarshal := Demo.decode;
     json_MarshalIndent := λ issue, inl ("{ key: " +:+ Key issue +:+ " }");
     process := λ _ _, {| exit_err := None; output := "" |} |}.

(** A tracker that rejects comments. *)
Definition env_no_comments : Env :=
  {| viper_GetString := Demo.settings;
     atlassian_New := λ _, None;
     SearchJQL := λ _ _ _ _ _ tok, Demo.two_pages [] tok;
     Comment_Add := λ _ _ _,
       CommentErr (errorString "403 Forbidden") (Some ("403 Forbidden", "no"));
     yaml_Unmarshal := Demo.decode;
     json_MarshalIndent := λ issue, inl ("{ key: " +:+ Key issue +:+ " }");
     process := λ _ _, {| exit_err := None; output := "" |} |}.

(** [workspaces] is a file. *)
Definition w_workspaces_is_file : World := Demo.world [("/app/workspaces", FileNode "")].

Definition no_key : IssueScheme := {| Key := ""; Fields_Summary := "blank" |}.

Definition two_repos : ReposConfig :=
  {| Repositories := [Demo.warp_server; {| URL := "warpdotdev/docs"; Branch := "dev" |}] |}.

(** With the clones of both repositories of [two_repos]. *)
Definition w_two_clones : World :=
  Demo.world [("/app/workspaces", DirNode); ("/app/workspaces/A-1", DirNode);
              ("/app/repos", DirNode); ("/app/repos/warp-server", DirNode);
              ("/app/repos/docs", DirNode)].

End Demo2.

(** ** The first version of the drain: pages by offset

    [searchIssues] of the [jira-bot] main package pages by [StartAt] and
    ends on the tracker's [Total]. Its requests are kept beside the world,
    in a list of their own. Go's [int] is the 64-bit signed integer of the
    platforms the program is built for: a [Z] between [MinInt] and
    [MaxInt], with additions that wrap around. *)

Module JiraBot.

Definition MaxInt : Z := 2 ^ 63 - 1.
Definition MinInt : Z := - 2 ^ 63.

(** The value of a 64-bit signed integer after an overflow. *)
Definition wrap (z : Z) : Z := ((z + 2 ^ 63) mod 2 ^ 64 - 2 ^ 63)%Z.

(** [a + b] on [int]. *)
Definition int_add (a b : Z) : Z := wrap (a + b).

(** One [Search.Post]: the query, the two string-slice arguments in the
    order of the call ([nil], then summary and status), and the options. *)
Record PostRequest := {
  p_jql : string;
  p_arg3 : list string;
  p_arg4 : list string;
  StartAt : Z;
  MaxResults : Z;
}.

Inductive PostOutcome :=
| PostOK (Issues : list IssueScheme) (Total : Z)
| PostErr (err : error).

Record Bot := {
  world : World;
  posts : list PostRequest;
}.

Section Drain.
(** The tracker: its answer may depend on all that happened before. *)
Context (Post : list Event → list PostRequest → PostRequest → PostOutcome).

Definition pageSize : Z := 50.

(** The [for] loop of [searchIssues]; the result is the error returned
    from inside the loop, or [totalIssues] at the [break]. *)
Fixpoint searchIssues_for (fuel : nat) (jql : string)
    (callback : IssueScheme → World → World * option error)
    (startAt totalIssues : Z) (b : Bot) : option (Bot * (error + Z)) :=
  match fuel with
  | 0 => None
  | S fuel =>
      let options := {| p_jql := jql; p_arg3 := []; p_arg4 := ["summary"; "status"];
                        StartAt := startAt; MaxResults := pageSize |} in
      let sent := posts b ++ [options] in
      match Post (trace (world b)) (posts b) options with
      | PostErr err => Some ({| world := world b; posts := sent |}, inl err)
      | PostOK issues total =>
          match searchIssues_range callback issues (world b) with
          | (w, Some err) => Some ({| world := w; posts := sent |}, inl err)
          | (w, None) =>
              let totalIssues := int_add totalIssues (Z.of_nat (length issues)) in
              if decide (int_add startAt (Z.of_nat (length issues)) >= total)%Z then
                Some ({| world := w; posts := sent |}, inr totalIssues)
              else
                searchIssues_for fuel jql callback (int_add startAt pageSize) totalIssues
                  {| world := w; posts := sent |}
          end
      end
  end.

(** [searchIssues]. *)
Definition searchIssues (fuel : nat) (label : string)
    (callback : IssueScheme → World → World * option error) (b : Bot)
  : option (Bot * option error) :=
  match searchIssues_for fuel (jql_of label) callback 0 0 b with
  | None => None
  | Some (b, inl err) => Some (b, Some err)
  | Some (b, inr totalIssues) =>
      Some ({| world := log InfoLevel [("label", label); ("total", pretty totalIssues)]
                          "finished processing issues" (world b);
               posts := posts b |}, None)
  end.

End Drain.

(** A tracker that holds the issues [held] and serves them as asked: the
    page of at most [MaxResults] issues from [StartAt] on, and their number
    as [Total]. *)
Definition serves (held : list IssueScheme)
    (Post : list Event → list PostRequest → PostRequest → PostOutcome) : Prop :=
  ∀ t sent req,
    Post t sent req
    = PostOK (take (Z.to_nat (MaxResults req)) (drop (Z.to_nat (StartAt req)) held))
        (Z.of_nat (length held)).

(** The offsets of [n] requests. *)
Definition offsets (n : nat) : list Z := (λ i, 50 * Z.of_nat i)%Z <$> seq 0 n.

(** The tracker of the examples: 120 issues, served as asked. *)
Definition numbered (i : nat) : IssueScheme :=
  {| Key := "N-" +:+ pretty i; Fields_Summary := "" |}.

Definition held_120 : list IssueScheme := numbered <$> seq 0 120.

Definition tracker_120 : list Event → list PostRequest → PostRequest → PostOutcome :=
  λ _ _ req,
    PostOK (take (Z.to_nat (MaxResults req)) (drop (Z.to_nat (StartAt req)) held_120))
      (Z.of_nat (length held_120)).

(** A tracker that never has more than one issue to give but reports 70. *)
Definition tracker_short : list Event → list PostRequest → PostRequest → PostOutcome :=
  λ _ _ _, PostOK [numbered 0] 70.

(** A tracker that has nothing to give but reports the largest total. *)
Definition tracker_full : list Event → list PostRequest → PostRequest → PostOutcome :=
  λ _ _ _, PostOK [] MaxInt.

Definition start : Bot := {| world := Demo.w_ready; posts := [] |}.

End JiraBot.

(** ** The library models on examples *)

Example Clean_examples :
  Filepath.Clean "a//b/./c/.." = "a/b" /\
  Filepath.Clean "../../x" = "../../x" /\
  Filepath.Clean "/../x/" = "/x" /\
  Filepath.Clean "a/.." = "." /\
  Filepath.Clean "/" = "/" /\
  Filepath.Clean "a/../.." = ".." /\
  Filepath.Clean "abc//" = "abc" /\
  Filepath.Clean "/a/b/../../.." = "/" /\
  Filepath.Join "workspaces" "A-1" = "workspaces/A-1" /\
  Filepath.Join "workspaces" "" = "workspaces" /\
  Filepath.Join "/app" "workspaces/A-1/.." = "/app/workspaces" /\
  GoStrings.SplitN_slash_2 "warpdotdev/warp-server" = ["warpdotdev"; "warp-server"] /\
  GoStrings.SplitN_slash_2 "a/b/c" = ["a"; "b/c"] /\
  GoStrings.SplitN_slash_2 "warp-server" = ["warp-server"].
Proof. repeat split; reflexivity. Qed.

(** ** Worlds only grow *)

Section Growth.
Context (E : Env).

Lemma fs_grows_refl m : fs_grows m m.
Proof. intros q; split; eauto. Qed.

Lemma fs_grows_trans m1 m2 m3 : fs_grows m1 m2 → fs_grows m2 m3 → fs_grows m1 m3.
Proof.
  intros H12 H23 q; split.
  - intros Hd. apply H23, H12, Hd.
  - intros c Hf. destruct (proj2 (H12 q) c Hf) as [c' Hc']. exact (proj2 (H23 q) c' Hc').
Qed.

Lemma fs_grows_insert_dir (m : gmap string Node) q :
  (∀ c, m !! q ≠ Some (FileNode c)) → fs_grows m (<[q := DirNode]> m).
Proof.
  intros Hq p; destruct (decide (q = p)) as [->|Hne].
  - rewrite lookup_insert_eq; split; [done|]. intros c Hc. destruct (Hq c Hc).
  - rewrite lookup_insert_ne by done. split; eauto.
Qed.

Lemma fs_grows_insert_file (m : gmap string Node) q c0 :
  m !! q ≠ Some DirNode → fs_grows m (<[q := FileNode c0]> m).
Proof.
  intros Hq p; destruct (decide (q = p)) as [->|Hne].
  - rewrite lookup_insert_eq; split; [done|]. eauto.
  - rewrite lookup_insert_ne by done. split; eauto.
Qed.

Lemma fs_grows_is_Some m m' q : fs_grows m m' → is_Some (m !! q) → is_Some (m' !! q).
Proof.
  intros H [[|c] Hn].
  - rewrite (proj1 (H q) Hn); eauto.
  - destruct (proj2 (H q) c Hn) as [c' ->]; eauto.
Qed.

Lemma evolves_refl P w : evolves P w w.
Proof.
  split; [done|]. split; [apply fs_grows_refl|].
  exists []. by rewrite app_nil_r.
Qed.

Lemma evolves_trans P w1 w2 w3 : evolves P w1 w2 → evolves P w2 w3 → evolves P w1 w3.
Proof.
  intros (Hc1 & Hf1 & t1 & Ht1 & HP1) (Hc2 & Hf2 & t2 & Ht2 & HP2).
  split; [congruence|]. split; [eapply fs_grows_trans; eauto|].
  exists (t1 ++ t2). split.
  - by rewrite Ht2, Ht1, app_assoc.
  - by apply Forall_app.
Qed.

Lemma evolves_mono (P Q : Event → Prop) w w' :
  (∀ ev, P ev → Q ev) → evolves P w w' → evolves Q w w'.
Proof.
  intros HPQ (Hc & Hf & t & Ht & HP). split; [done|]. split; [done|].
  exists t; split; [done|]. eapply Forall_impl; eauto.
Qed.

Lemma evolves_record (P : Event → Prop) ev w : P ev → evolves P w (record ev w).
Proof.
  intros HP. split; [done|]. split; [apply fs_grows_refl|].
  exists [ev]. split; [done|]. by constructor.
Qed.

Lemma evolves_record_fs (P : Event → Prop) ev m w :
  P ev → fs_grows (fs w) m → evolves P w (record ev (set_fs m w)).
Proof.
  intros HP Hm. split; [done|]. split; [done|].
  exists [ev]. split; [done|]. by constructor.
Qed.

Lemma evolves_pending (P : Event → Prop) w l :
  evolves P w {| cwd := cwd w; fs := fs w; trace := trace w; pending := l |}.
Proof.
  split; [done|]. split; [apply fs_grows_refl|].
  exists []. by rewrite app_nil_r.
Qed.

Lemma os_Mkdir_evolves (P : Event → Prop) path w :
  (∀ res, P (EvMkdir path res)) → evolves P w (os_Mkdir path w).1.
Proof.
  intros HP. unfold os_Mkdir.
  destruct (resolve w path) as [q|]; simpl; [|by apply evolves_record].
  destruct (fs w !! q) eqn:Hq; simpl; [by apply evolves_record|].
  destruct (parent_errno w q); simpl; [by apply evolves_record|].
  apply evolves_record_fs; [done|].
  apply fs_grows_insert_dir. intros c. by rewrite Hq.
Qed.

Lemma os_Create_evolves (P : Event → Prop) path w :
  (∀ res, P (EvCreate path res)) → evolves P w (os_Create path w).1.
Proof.
  intros HP. unfold os_Create.
  destruct (resolve w path) as [q|]; simpl; [|by apply evolves_record].
  destruct (fs w !! q) as [[|c]|] eqn:Hq; simpl.
  - by apply evolves_record.
  - apply evolves_record_fs; [done|]. apply fs_grows_insert_file. by rewrite Hq.
  - destruct (parent_errno w q); simpl; [by apply evolves_record|].
    apply evolves_record_fs; [done|]. apply fs_grows_insert_file. by rewrite Hq.
Qed.

Lemma run_child_evolves (P : Event → Prop) c w :
  P (EvExec c) → evolves P w (run_child E c w).1.
Proof.
  intros HP. unfold run_child.
  destruct (chdir_errno c w); simpl; [by apply evolves_record|].
  destruct (git_worktree_target c w) as [q|]; simpl; [|by apply evolves_record].
  destruct (fs w !! q) as [[|c0]|] eqn:Hq; simpl.
  - destruct (exit_err _); simpl; [by apply evolves_record|].
    eapply evolves_trans; [by apply evolves_record|].
    split; [done|]. split; [|exists []; by rewrite app_nil_r].
    apply fs_grows_insert_dir. simpl. intros c1. by rewrite Hq.
  - by apply evolves_record.
  - destruct (exit_err _); simpl; [by apply evolves_record|].
    eapply evolves_trans; [by apply evolves_record|].
    split; [done|]. split; [|exists []; by rewrite app_nil_r].
    apply fs_grows_insert_dir. simpl. intros c1. by rewrite Hq.
Qed.

Lemma createWorktree_evolves ws k repo logger w :
  evolves provisioning_ev w (createWorktree E ws k repo logger w).1.
Proof.
  unfold createWorktree.
  destruct (GoStrings.SplitN_slash_2 (URL repo)) as [|? [|repoName [|]]];
    simpl; try apply evolves_refl.
  destruct (Filepath.Abs (cwd w) _) as [absRepo|]; simpl; [|apply evolves_refl].
  destruct (Filepath.Abs (cwd w) _) as [absTree|]; simpl; [|apply evolves_refl].
  unfold CombinedOutput.
  match goal with |- context [run_child E ?c ?w0] =>
    pose proof (run_child_evolves provisioning_ev c w0 eq_refl) as Hrun;
    assert (evolves provisioning_ev w w0) as H0 by (apply evolves_record; exact I);
    destruct (run_child E c w0) as [w1 r] end.
  simpl in Hrun.
  destruct (exit_err r); simpl.
  - eapply evolves_trans; eassumption.
  - eapply evolves_trans; [exact H0|]. eapply evolves_trans; [exact Hrun|].
    apply evolves_record; exact I.
Qed.

Lemma setupRepositoryWorktrees_range_evolves ws k repos logger w :
  evolves provisioning_ev w (setupRepositoryWorktrees_range E ws k repos logger w).1.
Proof.
  revert w. induction repos as [|repo rest IH]; intros w; simpl; [apply evolves_refl|].
  pose proof (createWorktree_evolves ws k repo logger w) as H1.
  destruct (createWorktree E ws k repo logger w) as [w1 [err|]]; simpl in *; [done|].
  eapply evolves_trans; [done|apply IH].
Qed.

Lemma setupRepositoryWorktrees_evolves ws k cfg logger w :
  evolves provisioning_ev w (setupRepositoryWorktrees E ws k cfg logger w).1.
Proof.
  unfold setupRepositoryWorktrees. case_decide; simpl.
  - by apply evolves_record.
  - apply setupRepositoryWorktrees_range_evolves.
Qed.

Lemma provisioning_is_agent_ev ev : provisioning_ev ev → agent_ev ev.
Proof. by destruct ev. Qed.

Lemma runAgent_evolves ws issue cfg w :
  evolves agent_ev w (runAgent E ws issue cfg w).
Proof.
  unfold runAgent.
  pose proof (os_Create_evolves agent_ev (Filepath.Join ws "output.log") w
                (λ _, I)) as H1.
  destruct (os_Create _ w) as [w1 [err|]]; simpl in H1.
  { eapply evolves_trans; [done|]. by apply evolves_record. }
  match goal with |- context [setupRepositoryWorktrees E ?a ?b ?c ?d ?e] =>
    pose proof (evolves_mono _ _ _ _ provisioning_is_agent_ev
                  (setupRepositoryWorktrees_evolves a b c d e)) as H2;
    destruct (setupRepositoryWorktrees E a b c d e) as [w2 [err|]] end; simpl in H2.
  { eapply evolves_trans; [done|]. eapply evolves_trans; [done|]. by apply evolves_record. }
  eapply evolves_trans; [done|]. eapply evolves_trans; [done|].
  destruct (json_MarshalIndent E issue) as [issueJSON|err]; [|by apply evolves_record].
  unfold Run.
  match goal with |- context [run_child E ?c ?w0] =>
    pose proof (run_child_evolves agent_ev c w0 I) as Hrun;
    destruct (run_child E c w0) as [w3 r] end.
  simpl in Hrun.
  assert (evolves agent_ev w2
            (log InfoLevel [("key", Key issue);
                            ("logPath", Filepath.Join ws "output.log")]
               "starting warp agent"
               (if decide (viper_GetString E "profile_id" = "") then w2
                else log InfoLevel
                       ([("key", Key issue);
                         ("logPath", Filepath.Join ws "output.log")] ++
                        [("profile_id", viper_GetString E "profile_id")])
                       "using warp profile for warp-cli" w2))) as H3.
  { case_decide.
    - by apply evolves_record.
    - eapply evolves_trans; by apply evolves_record. }
  eapply evolves_trans; [exact H3|]. eapply evolves_trans; [exact Hrun|].
  destruct (exit_err r); by apply evolves_record.
Qed.

Lemma handleIssue_evolves issue cfg w :
  evolves handler_ev w (handleIssue issue cfg w).1.
Proof.
  unfold handleIssue.
  pose proof (os_Mkdir_evolves handler_ev (Filepath.Join workspacesDir (Key issue)) w
                (λ _, I)) as H1.
  destruct (os_Mkdir _ w) as [w1 [err|]]; simpl in H1.
  - destruct (errors_Is_ErrExist err); simpl;
      (eapply evolves_trans; [exact H1|apply evolves_record; exact I]).
  - simpl. eapply evolves_trans; [exact H1|].
    split; [done|]. split; [apply fs_grows_refl|]. simpl.
    eexists [_; _]. split; [by rewrite <- app_assoc|]. by repeat constructor.
Qed.

End Growth.

(** ** The dedup gate *)

Section Dedup.
Context (E : Env).

Lemma started_app t1 t2 : started (t1 ++ t2) = started t1 ++ started t2.
Proof. apply omap_app. Qed.

Lemma started_not_go t : Forall not_go t → started t = [].
Proof.
  induction 1 as [|ev t Hev _ IH]; [done|].
  change (ev :: t) with ([ev] ++ t). rewrite started_app, IH, app_nil_r.
  by destruct ev.
Qed.

Lemma resolve_evolves P w w' path : evolves P w w' → resolve w' path = resolve w path.
Proof. intros (Hc & _). unfold resolve. by rewrite Hc. Qed.

Lemma claimed_evolves P w w' k : evolves P w w' → claimed w k → claimed w' k.
Proof.
  intros Hev (q & Hq & Hs). exists q. split.
  - by rewrite (resolve_evolves _ _ _ _ Hev).
  - destruct Hev as (_ & Hf & _). by eapply fs_grows_is_Some.
Qed.

Lemma dedup_inv_evolves P w w' :
  (∀ ev, P ev → not_go ev) → evolves P w w' → dedup_inv w → dedup_inv w'.
Proof.
  intros HP Hev [Hnd Hcl].
  assert (started (trace w') = started (trace w)) as Hst.
  { destruct Hev as (_ & _ & t & -> & Ht).
    rewrite started_app, (started_not_go t), app_nil_r; [done|].
    eapply Forall_impl; eauto. }
  split; rewrite Hst; [done|].
  intros k Hk. eapply claimed_evolves; eauto.
Qed.

Lemma dedup_inv_record ev w : not_go ev → dedup_inv w → dedup_inv (record ev w).
Proof.
  intros Hev. apply (dedup_inv_evolves not_go); [done|]. by apply evolves_record.
Qed.

(** On a claimed key the handler only observes the directory. *)
Lemma handleIssue_claimed issue cfg w :
  claimed w (Key issue) → handleIssue issue cfg w = already_handled issue w.
Proof.
  intros (q & Hq & [n Hn]). unfold handleIssue, os_Mkdir, already_handled.
  by rewrite Hq, Hn.
Qed.

(** A key whose workspace the handler creates was not claimed before. *)
Lemma handleIssue_dedup_inv issue cfg w :
  dedup_inv w → dedup_inv (handleIssue issue cfg w).1.
Proof.
  intros Hinv. unfold handleIssue, os_Mkdir.
  set (ws := Filepath.Join workspacesDir (Key issue)).
  destruct (resolve w ws) as [q|] eqn:Hq; simpl.
  2:{ repeat (apply dedup_inv_record; [exact I|]). exact Hinv. }
  destruct (fs w !! q) as [n|] eqn:Hn; simpl.
  { repeat (apply dedup_inv_record; [exact I|]). exact Hinv. }
  destruct (parent_errno w q) as [en|]; simpl.
  { destruct en; simpl; repeat (apply dedup_inv_record; [exact I|]); exact Hinv. }
  destruct Hinv as [Hnd Hcl]. unfold dedup_inv, go, log, record, set_fs; simpl.
  rewrite !started_app; simpl. rewrite !app_nil_r, fmap_app; simpl.
  assert (Key issue ∉ Key <$> started (trace w)) as Hfresh.
  { intros Hin. destruct (Hcl _ Hin) as (q' & Hq' & Hs).
    fold ws in Hq'. rewrite Hq in Hq'. injection Hq' as <-.
    rewrite Hn in Hs. by destruct Hs. }
  split.
  - apply NoDup_app. split; [done|]. split.
    + intros k Hk Hk'. apply list_elem_of_singleton in Hk'. by subst.
    + apply NoDup_singleton.
  - intros k Hk. apply elem_of_app in Hk as [Hk|Hk].
    + destruct (Hcl _ Hk) as (q' & Hq' & Hs). exists q'. split; [done|]. simpl.
      destruct (decide (q = q')) as [->|Hne].
      * rewrite lookup_insert_eq. eauto.
      * by rewrite lookup_insert_ne.
    + apply list_elem_of_singleton in Hk as ->. exists q. split; [done|]. simpl.
      rewrite lookup_insert_eq. eauto.
Qed.

Lemma searchIssues_range_preserves (Inv : World → Prop) cb issues w :
  (∀ ev w, not_go ev → Inv w → Inv (record ev w)) →
  (∀ i w, Inv w → Inv (cb i w).1) →
  Inv w → Inv (searchIssues_range cb issues w).1.
Proof.
  intros Hrec Hcb. revert w. induction issues as [|i rest IH]; intros w Hw; [done|].
  simpl. specialize (Hcb i (record (EvCallback i) w) (Hrec (EvCallback i) w I Hw)).
  destruct (cb i _) as [w1 [err|]]; simpl in *; [done|]. by apply IH.
Qed.

Lemma searchIssues_for_preserves (Inv : World → Prop) fuel jql cb tok w w' r :
  (∀ ev w, not_go ev → Inv w → Inv (record ev w)) →
  (∀ i w, Inv w → Inv (cb i w).1) →
  Inv w → searchIssues_for E fuel jql cb tok w = Some (w', r) → Inv w'.
Proof.
  intros Hrec Hcb. revert tok w. induction fuel as [|fuel IH]; intros tok w Hw; [done|].
  simpl. destruct (SearchJQL E _ _ _ _ _ _) as [issues next|err response].
  - pose proof (searchIssues_range_preserves Inv cb issues _ Hrec Hcb
                  (Hrec (EvSearchJQL jql search_fields search_expands pageSize tok)
                     w I Hw)) as H1.
    destruct (searchIssues_range cb issues _) as [w1 [err|]]; simpl in H1.
    + by intros [= <- <-].
    + case_decide; [by intros [= <- <-]|]. by apply IH.
  - intros [= <- <-]. destruct response as [[status body]|].
    + apply Hrec; [exact I|]. by apply Hrec.
    + by apply Hrec.
Qed.

Lemma searchIssues_preserves (Inv : World → Prop) fuel label cb w w' r :
  (∀ ev w, not_go ev → Inv w → Inv (record ev w)) →
  (∀ i w, Inv w → Inv (cb i w).1) →
  Inv w → searchIssues E fuel label cb w = Some (w', r) → Inv w'.
Proof.
  intros Hrec Hcb Hw. unfold searchIssues.
  destruct (searchIssues_for E fuel _ cb "" _) as [[w1 [err|]]|] eqn:Hfor; [| |done].
  - intros [= <- <-]. eapply searchIssues_for_preserves; [done|done| |exact Hfor].
    by apply Hrec.
  - intros [= <- <-]. apply Hrec; [exact I|].
    eapply searchIssues_for_preserves; [done|done| |exact Hfor]. by apply Hrec.
Qed.

Lemma step_dedup_inv w w' : step E w w' → dedup_inv w → dedup_inv w'.
Proof.
  intros Hstep Hinv. destruct Hstep as [issue cfg w|fuel label cfg w w' r Hs|g b a w Hp].
  - by apply handleIssue_dedup_inv.
  - eapply (searchIssues_preserves dedup_inv); [| |exact Hinv|exact Hs].
    + intros ev w0. apply dedup_inv_record.
    + intros i w0 Hw0. exact (handleIssue_dedup_inv i cfg w0 Hw0).
  - unfold run_goroutine.
    eapply (dedup_inv_evolves agent_ev); [by intros []| |exact Hinv].
    eapply evolves_trans; [apply (evolves_pending _ w (b ++ a))|].
    apply runAgent_evolves.
Qed.

Lemma rtc_step_dedup_inv w w' : rtc (step E) w w' → dedup_inv w → dedup_inv w'.
Proof. induction 1; eauto using step_dedup_inv. Qed.

Lemma step_evolves w w' : step E w w' → evolves any_ev w w'.
Proof.
  intros [issue cfg w0|fuel label cfg w0 w1 r Hs|g b a w0 Hp].
  - eapply evolves_mono; [|apply handleIssue_evolves]. done.
  - eapply (searchIssues_preserves (λ x, evolves any_ev w0 x)); [| |apply evolves_refl|exact Hs].
    + intros ev x _ Hx. eapply evolves_trans; [exact Hx|]. by apply evolves_record.
    + intros i x Hx. eapply evolves_trans; [exact Hx|].
      eapply evolves_mono; [|apply handleIssue_evolves]. done.
  - unfold run_goroutine.
    eapply evolves_trans; [apply (evolves_pending _ w0 (b ++ a))|].
    eapply evolves_mono; [|apply runAgent_evolves]. done.
Qed.

Lemma rtc_step_evolves w w' : rtc (step E) w w' → evolves any_ev w w'.
Proof.
  induction 1 as [|w1 w2 w3 H12 _ IH]; [apply evolves_refl|].
  eapply evolves_trans; [by apply step_evolves|done].
Qed.

Lemma dedup_inv_fresh w : started (trace w) = [] → dedup_inv w.
Proof.
  intros H. unfold dedup_inv. rewrite H. split; [constructor|].
  intros k Hk. by apply elem_of_nil in Hk.
Qed.

(** C1. From a world in which no goroutine was started yet, after any run
    of the process (handler calls on any issues, whole drains, goroutines
    running in between): goroutines were started for pairwise different
    issue keys, so no key was claimed twice; and for a key that was claimed,
    in this run or before it, the handler returns nil, records the failed
    [mkdir] and one record at debug level, and starts nothing. *)
Theorem handleIssue_claims_at_most_once (w0 w : World) :
  started (trace w0) = [] →
  rtc (step E) w0 w →
  NoDup (Key <$> started (trace w)) ∧
  ∀ issue cfg,
    claimed w0 (Key issue) ∨ Key issue ∈ (Key <$> started (trace w)) →
    handleIssue issue cfg w = already_handled issue w ∧
    started (trace (handleIssue issue cfg w).1) = started (trace w) ∧
    logged ErrorLevel (trace (handleIssue issue cfg w).1) = logged ErrorLevel (trace w) ∧
    fs (handleIssue issue cfg w).1 = fs w ∧
    pending (handleIssue issue cfg w).1 = pending w.
Proof.
  intros H0 Hrtc.
  destruct (rtc_step_dedup_inv _ _ Hrtc (dedup_inv_fresh _ H0)) as [Hnd Hcl].
  split; [done|]. intros issue cfg Hin.
  assert (claimed w (Key issue)) as Hc.
  { destruct Hin as [Hin|Hin]; [|by apply Hcl].
    eapply claimed_evolves; [apply (rtc_step_evolves _ _ Hrtc)|exact Hin]. }
  rewrite (handleIssue_claimed issue cfg w Hc).
  split; [done|]. unfold already_handled, log, record, started, logged; simpl.
  rewrite <- !app_assoc, !omap_app; simpl. by rewrite !app_nil_r.
Qed.

End Dedup.

(** ** The drain *)

Section Drain.
Context (E : Env).

Lemma drain_view_app t1 t2 : drain_view (t1 ++ t2) = drain_view t1 ++ drain_view t2.
Proof. apply omap_app. Qed.

Lemma drain_view_handler_ev t : Forall handler_ev t → drain_view t = [].
Proof.
  induction 1 as [|ev t Hev _ IH]; [done|].
  change (ev :: t) with ([ev] ++ t). rewrite drain_view_app, IH, app_nil_r.
  by destruct ev.
Qed.

Lemma handleIssue_quiet cfg : quiet_callback (λ issue, handleIssue issue cfg).
Proof.
  intros i w. destruct (handleIssue_evolves i cfg w) as (_ & _ & t & Ht & HP).
  exists t. split; [done|]. by apply drain_view_handler_ev.
Qed.

Lemma searchIssues_range_app cb l1 l2 w :
  searchIssues_range cb (l1 ++ l2) w =
  match searchIssues_range cb l1 w with
  | (w1, None) => searchIssues_range cb l2 w1
  | r => r
  end.
Proof.
  revert w. induction l1 as [|i l1 IH]; intros w; [done|]. simpl.
  destruct (cb i _) as [w1 [err|]]; [done|]. apply IH.
Qed.

(** The calls of a page that went through, in the page's order. *)
Lemma searchIssues_range_view cb issues w w1 :
  quiet_callback cb →
  searchIssues_range cb issues w = (w1, None) →
  drain_view (trace w1) = drain_view (trace w) ++ (inr <$> issues).
Proof.
  intros Hq. revert w. induction issues as [|i rest IH]; intros w; simpl.
  - intros [= <-]. by rewrite app_nil_r.
  - destruct (Hq i (record (EvCallback i) w)) as (t & Ht & Hv).
    destruct (cb i _) as [w2 [err|]]; [done|]. intros Hrest.
    rewrite (IH _ Hrest). simpl in Ht. rewrite Ht, !drain_view_app, Hv. simpl.
    by rewrite app_nil_r, <- app_assoc.
Qed.

(** The calls of a page up to the one that failed. *)
Lemma searchIssues_range_stops cb before issue after w w1 w2 err :
  searchIssues_range cb before w = (w1, None) →
  cb issue (record (EvCallback issue) w1) = (w2, Some err) →
  searchIssues_range cb (before ++ issue :: after) w = (w2, Some err).
Proof.
  intros H1 H2. rewrite searchIssues_range_app, H1. simpl. by rewrite H2.
Qed.

(** Pages that went through cost one unit of fuel each. *)
Lemma pages_done_for label cb tok w pages tok' w' n :
  pages_done E label cb tok w pages tok' w' →
  searchIssues_for E (length pages + n) (jql_of label) cb tok w =
  searchIssues_for E n (jql_of label) cb tok' w'.
Proof.
  induction 1 as [|tok w issues next w1 rest tok' w' Hs Hr Hn _ IH]; [done|].
  simpl. rewrite Hs. unfold request_ev in Hr. rewrite Hr.
  by rewrite decide_False.
Qed.

Lemma pages_done_view label cb tok w pages tok' w' :
  quiet_callback cb →
  pages_done E label cb tok w pages tok' w' →
  drain_view (trace w') = drain_view (trace w) ++ in_page_order tok pages.
Proof.
  intros Hq. induction 1 as [|tok w issues next w1 rest tok' w' Hs Hr Hn _ IH].
  - by rewrite app_nil_r.
  - rewrite IH, (searchIssues_range_view _ _ _ _ Hq Hr). simpl.
    rewrite drain_view_app. simpl. by rewrite <- !app_assoc.
Qed.

Lemma default_last_cons {A} (a b x : A) (l : list A) :
  default a (last (x :: l)) = default b (last (x :: l)).
Proof. revert x. induction l as [|y l IH]; intros x; [done|]. apply (IH y). Qed.

Lemma in_page_order_app tok pages issues next :
  in_page_order tok (pages ++ [(issues, next)]) =
  in_page_order tok pages ++
  inl (default tok (last (pages.*2))) :: (inr <$> issues).
Proof.
  revert tok. induction pages as [|[is0 nx] rest IH]; intros tok; simpl.
  - by rewrite app_nil_r.
  - rewrite IH, <- app_assoc. simpl.
    assert (default nx (last (rest.*2)) = default tok (last (nx :: rest.*2))) as ->;
      [|done].
    destruct rest as [|[is1 nx1] rest]; [done|].
    exact (default_last_cons nx tok nx1 _).
Qed.

(** The token the drain stands at after pages that went through. *)
Lemma pages_done_token label cb tok w pages tok' w' :
  pages_done E label cb tok w pages tok' w' →
  tok' = default tok (last (pages.*2)).
Proof.
  induction 1 as [|tok w issues next w1 rest tok' w' Hs Hr Hn Hd IH]; [done|].
  rewrite IH. destruct rest as [|[is1 nx1] rest]; [done|].
  exact (default_last_cons next tok nx1 _).
Qed.

(** A drain that ends without error has gone through pages with non-empty
    cursors up to a page with an empty cursor. *)
Lemma searchIssues_for_nil label cb fuel tok w w' :
  searchIssues_for E fuel (jql_of label) cb tok w = Some (w', None) →
  ∃ pages tok' w1 issues,
    pages_done E label cb tok w pages tok' w1 ∧
    SearchJQL E (trace w1) (jql_of label) search_fields search_expands pageSize tok'
      = SearchOK issues "" ∧
    searchIssues_range cb issues (record (request_ev label tok') w1) = (w', None).
Proof.
  revert tok w. induction fuel as [|fuel IH]; intros tok w; [done|]. simpl.
  destruct (SearchJQL E _ _ _ _ _ _) as [issues next|err response] eqn:Hs; [|done].
  destruct (searchIssues_range cb issues _) as [w2 [err|]] eqn:Hr; [done|].
  case_decide as Hn.
  - intros [= <-]. subst next. exists [], tok, w, issues.
    split; [constructor|]. by split.
  - intros Hrest. destruct (IH _ _ Hrest) as (pages & tok' & w1 & issues' & Hp & Hs' & Hr').
    exists ((issues, next) :: pages), tok', w1, issues'.
    split; [|by split]. econstructor; eauto.
Qed.

(** How the handler fails: [mkdir] failed with something else than
    [EEXIST], and the failure is logged at error level. *)
Lemma handleIssue_failed issue cfg w w2 err :
  handleIssue issue cfg w = (w2, Some err) →
  ∃ en, en ≠ EEXIST ∧
    err = PathError "mkdir" (Filepath.Join workspacesDir (Key issue)) en ∧
    w2 = log ErrorLevel
           (Err err ++ [("key", Key issue);
                        ("directory", Filepath.Join workspacesDir (Key issue))])
           "failed to create workspace directory"
           (record (EvMkdir (Filepath.Join workspacesDir (Key issue)) (Some en)) w).
Proof.
  unfold handleIssue, os_Mkdir.
  set (ws := Filepath.Join workspacesDir (Key issue)).
  assert (∀ en, en ≠ EEXIST →
    (if errors_Is_ErrExist (PathError "mkdir" ws en)
     then (log DebugLevel [("key", Key issue)] "issue was already handled"
             (record (EvMkdir ws (Some en)) w), None)
     else (log ErrorLevel (Err (PathError "mkdir" ws en) ++
                           [("key", Key issue); ("directory", ws)])
             "failed to create workspace directory"
             (record (EvMkdir ws (Some en)) w), Some (PathError "mkdir" ws en)))
    = (w2, Some err) →
    ∃ en, en ≠ EEXIST ∧ err = PathError "mkdir" ws en ∧
      w2 = log ErrorLevel (Err err ++ [("key", Key issue); ("directory", ws)])
             "failed to create workspace directory"
             (record (EvMkdir ws (Some en)) w)) as Hfail.
  { intros en Hen. simpl. rewrite bool_decide_false by done.
    intros [= <- <-]. by exists en. }
  destruct (resolve w ws) as [q|]; simpl; [|by apply (Hfail ENOENT)].
  destruct (fs w !! q); simpl; [done|].
  destruct (parent_errno w q) as [en|] eqn:Hpe; simpl; [|done].
  apply (Hfail en). unfold parent_errno in Hpe.
  destruct (fs w !! parent q) as [[|c]|]; by simplify_eq.
Qed.

Lemma fuel_split (n fuel : nat) : n < fuel → fuel = n + S (fuel - S n).
Proof. lia. Qed.

Lemma drain_view_start label w0 :
  drain_view (trace (log InfoLevel [("label", label)] "Searching for Jira issues" w0))
  = drain_view (trace w0).
Proof. simpl. by rewrite drain_view_app, app_nil_r. Qed.

(** C2, as amended. When the handler fails on an issue, on whatever page
    of the drain, the failure is logged, [searchIssues] returns the
    handler's error at once, and the tick ends with the record of that
    error: the calls and requests of the tick are those of the pages
    before, the request of this page and the calls up to the failing one.
    The issues after it on the page and the later pages are not handled in
    this tick. *)
Theorem handler_failure_ends_drain cfg label w0 pages tok w
    before issue after next w1 w2 err fuel :
  pages_done E label (λ i, handleIssue i cfg) ""
    (log InfoLevel [("label", label)] "Searching for Jira issues" w0) pages tok w →
  SearchJQL E (trace w) (jql_of label) search_fields search_expands pageSize tok
    = SearchOK (before ++ issue :: after) next →
  searchIssues_range (λ i, handleIssue i cfg) before (record (request_ev label tok) w)
    = (w1, None) →
  handleIssue issue cfg (record (EvCallback issue) w1) = (w2, Some err) →
  length pages < fuel →
  searchIssues E fuel label (λ i, handleIssue i cfg) w0 = Some (w2, Some err) ∧
  tick E fuel label cfg w0
    = Some (log ErrorLevel (Err err) "failed to search issues" w2) ∧
  logged ErrorLevel (trace w2)
    = logged ErrorLevel (trace w1) ++ ["failed to create workspace directory"] ∧
  drain_view (trace w2)
    = drain_view (trace w0) ++ in_page_order "" pages
      ++ inl tok :: (inr <$> before ++ [issue]).
Proof.
  intros Hp Hs Hr Hf Hfuel.
  assert (searchIssues E fuel label (λ i, handleIssue i cfg) w0 = Some (w2, Some err))
    as Hsearch.
  { unfold searchIssues. rewrite (fuel_split _ _ Hfuel), (pages_done_for _ _ _ _ _ _ _ _ Hp).
    simpl. rewrite Hs.
    unfold request_ev in Hr.
    by rewrite (searchIssues_range_stops _ _ _ after _ _ _ _ Hr Hf). }
  split; [done|]. split; [unfold tick; by rewrite Hsearch|]. split.
  - destruct (handleIssue_failed _ _ _ _ _ Hf) as (en & _ & _ & ->).
    unfold logged, log, record; simpl. rewrite !omap_app; simpl.
    by rewrite !app_nil_r.
  - destruct (handleIssue_quiet cfg issue (record (EvCallback issue) w1))
      as (t & Ht & Hv).
    rewrite Hf in Ht. simpl in Ht. rewrite Ht, !drain_view_app, Hv. simpl.
    rewrite (searchIssues_range_view _ _ _ _ (handleIssue_quiet cfg) Hr). simpl.
    rewrite drain_view_app, (pages_done_view _ _ _ _ _ _ _ (handleIssue_quiet cfg) Hp).
    rewrite drain_view_start. simpl.
    rewrite app_nil_r, fmap_app. simpl. by rewrite <- !app_assoc.
Qed.

(** C6. In one tick the drain goes through the pages in order: when the
    tracker answers with pages that have a cursor and then with a page that
    has none, and the handler returns nil on their issues, the tick ends
    after that last page, having requested each page at the cursor of the
    page before and having called the handler on the issues of a page, in
    the page's order, before the next request. And a drain that ends
    without error has ended so: after a page with an empty cursor, every
    page before it having had a cursor that was followed. *)
Theorem drain_ends_at_empty_cursor cfg label w0 fuel :
  (∀ pages tok w issues w',
     pages_done E label (λ i, handleIssue i cfg) ""
       (log InfoLevel [("label", label)] "Searching for Jira issues" w0) pages tok w →
     SearchJQL E (trace w) (jql_of label) search_fields search_expands pageSize tok
       = SearchOK issues "" →
     searchIssues_range (λ i, handleIssue i cfg) issues (record (request_ev label tok) w)
       = (w', None) →
     length pages < fuel →
     tick E fuel label cfg w0
       = Some (log InfoLevel [("label", label)] "Finished searching for Jira issues" w') ∧
     drain_view (trace w')
       = drain_view (trace w0) ++ in_page_order "" (pages ++ [(issues, "")])) ∧
  (∀ w1,
     searchIssues E fuel label (λ i, handleIssue i cfg) w0 = Some (w1, None) →
     ∃ pages tok w issues w',
       pages_done E label (λ i, handleIssue i cfg) ""
         (log InfoLevel [("label", label)] "Searching for Jira issues" w0) pages tok w ∧
       SearchJQL E (trace w) (jql_of label) search_fields search_expands pageSize tok
         = SearchOK issues "" ∧
       searchIssues_range (λ i, handleIssue i cfg) issues (record (request_ev label tok) w)
         = (w', None) ∧
       w1 = log InfoLevel [("label", label)] "Finished searching for Jira issues" w').
Proof.
  split.
  - intros pages tok w issues w' Hp Hs Hr Hfuel. split.
    + unfold tick, searchIssues.
      rewrite (fuel_split _ _ Hfuel), (pages_done_for _ _ _ _ _ _ _ _ Hp).
      simpl. rewrite Hs. unfold request_ev in Hr. rewrite Hr. by rewrite decide_True.
    + rewrite (searchIssues_range_view _ _ _ _ (handleIssue_quiet cfg) Hr). simpl.
      rewrite drain_view_app, (pages_done_view _ _ _ _ _ _ _ (handleIssue_quiet cfg) Hp).
      rewrite drain_view_start, in_page_order_app, <- (pages_done_token _ _ _ _ _ _ _ Hp).
      simpl. by rewrite <- !app_assoc.
  - intros w1. unfold searchIssues.
    destruct (searchIssues_for E fuel _ _ "" _) as [[w' [err|]]|] eqn:Hfor; [done| |done].
    intros [= <-].
    destruct (searchIssues_for_nil _ _ _ _ _ _ Hfor) as (pages & tok & w & issues & H1 & H2 & H3).
    by exists pages, tok, w, issues, w'.
Qed.

(** C7. When a page request fails after pages that went through, the drain
    returns the error at once and the tick ends with its record. The
    failing request leaves the file system and the pending goroutines as
    they were; the trace gets the request and the records of the failure,
    and the calls and requests of the whole tick are those of the pages
    before and the failing request: nothing is handled after it. *)
Theorem search_failure_ends_tick cfg label w0 pages tok w err response fuel :
  pages_done E label (λ i, handleIssue i cfg) ""
    (log InfoLevel [("label", label)] "Searching for Jira issues" w0) pages tok w →
  SearchJQL E (trace w) (jql_of label) search_fields search_expands pageSize tok
    = SearchErr err response →
  length pages < fuel →
  ∃ w',
    searchIssues E fuel label (λ i, handleIssue i cfg) w0 = Some (w', Some err) ∧
    tick E fuel label cfg w0
      = Some (log ErrorLevel (Err err) "failed to search issues" w') ∧
    trace w' = trace w ++ request_ev label tok ::
                 match response with
                 | Some (status, body) =>
                     [EvLog ErrorLevel [("response.status", status);
                                        ("response.body", body)] "jira search failed"]
                 | None => []
                 end ∧
    fs w' = fs w ∧ pending w' = pending w ∧
    drain_view (trace (log ErrorLevel (Err err) "failed to search issues" w'))
      = drain_view (trace w0) ++ in_page_order "" pages ++ [inl tok].
Proof.
  intros Hp Hs Hfuel.
  set (w' := match response with
             | Some (status, body) =>
                 log ErrorLevel [("response.status", status); ("response.body", body)]
                   "jira search failed" (record (request_ev label tok) w)
             | None => record (request_ev label tok) w
             end).
  assert (searchIssues E fuel label (λ i, handleIssue i cfg) w0 = Some (w', Some err))
    as Hsearch.
  { unfold searchIssues. rewrite (fuel_split _ _ Hfuel), (pages_done_for _ _ _ _ _ _ _ _ Hp).
    simpl. by rewrite Hs. }
  exists w'. split; [done|]. split; [unfold tick; by rewrite Hsearch|].
  assert (trace w' = trace w ++ request_ev label tok ::
            match response with
            | Some (status, body) =>
                [EvLog ErrorLevel [("response.status", status);
                                   ("response.body", body)] "jira search failed"]
            | None => []
            end) as Htr.
  { subst w'. destruct response as [[status body]|]; simpl; [|done].
    by rewrite <- app_assoc. }
  split; [done|]. split; [by subst w'; destruct response as [[? ?]|]|].
  split; [by subst w'; destruct response as [[? ?]|]|].
  simpl. rewrite Htr, !drain_view_app.
  rewrite (pages_done_view _ _ _ _ _ _ _ (handleIssue_quiet cfg) Hp), drain_view_start.
  destruct response as [[status body]|]; simpl; by rewrite app_nil_r, <- !app_assoc.
Qed.

End Drain.

(** ** Worktrees and the agent *)

Section Agent.
Context (E : Env).

Lemma executed_app t1 t2 : executed (t1 ++ t2) = executed t1 ++ executed t2.
Proof. apply omap_app. Qed.

Lemma Clean_nonempty path : Filepath.Clean path ≠ "".
Proof.
  unfold Filepath.Clean. case_decide; [done|].
  destruct (GoStrings.HasPrefix_slash path); [done|]. by case_decide.
Qed.

Lemma Join_nonempty_l a b : a ≠ "" → Filepath.Join a b ≠ "".
Proof. intros Ha. unfold Filepath.Join. rewrite decide_False by done. apply Clean_nonempty. Qed.

Lemma Abs_nonempty wd path q : path ≠ "" → Filepath.Abs wd path = Some q → q ≠ "".
Proof.
  intros Hp. unfold Filepath.Abs. destruct (Filepath.IsAbs path).
  - intros [= <-]. apply Clean_nonempty.
  - destruct wd as [d|]; [|done]. intros [= <-]. unfold Filepath.Join.
    case_decide; [by rewrite decide_False by done; apply Clean_nonempty|].
    apply Clean_nonempty.
Qed.

Lemma run_child_trace c w : trace (run_child E c w).1 = trace w ++ [EvExec c].
Proof.
  unfold run_child. destruct (chdir_errno c w); [done|].
  destruct (git_worktree_target c w) as [q|]; [|done].
  destruct (fs w !! q) as [[|c0]|]; simpl; try done;
    by destruct (exit_err (process E (trace w) c)).
Qed.

(** The one command of [createWorktree], when the URL has two parts and
    the paths can be made absolute. *)
Lemma createWorktree_executed ws k repo logger w owner name absRepo absTree :
  GoStrings.SplitN_slash_2 (URL repo) = [owner; name] →
  Filepath.Abs (cwd w) (Filepath.Join "repos" name) = Some absRepo →
  Filepath.Abs (cwd w) (Filepath.Join ws name) = Some absTree →
  executed (trace (createWorktree E ws k repo logger w).1)
  = executed (trace w) ++
    [{| Path := "git";
        Args := ["worktree"; "add"; "-b"; "warp/" +:+ k +:+ "-resolve";
                 absTree; Branch repo];
        Dir := absRepo |}].
Proof.
  intros Hs Hr Ht. unfold createWorktree. rewrite Hs, Hr, Ht.
  unfold CombinedOutput, branchName_of.
  match goal with |- context [run_child E ?c ?w0] =>
    pose proof (run_child_trace c w0) as Hrun;
    destruct (run_child E c w0) as [w1 r] end.
  simpl in Hrun.
  destruct (exit_err r); simpl; rewrite Hrun, !executed_app; simpl;
    by rewrite ?app_nil_r.
Qed.

Lemma createWorktree_cmds ws k repo logger w :
  ∃ cmds, executed (trace (createWorktree E ws k repo logger w).1)
          = executed (trace w) ++ cmds ∧
          Forall (worktree_cmd k repo) cmds.
Proof.
  unfold createWorktree.
  destruct (GoStrings.SplitN_slash_2 (URL repo)) as [|owner [|name [|]]] eqn:Hs;
    simpl; try (exists []; by rewrite app_nil_r).
  destruct (Filepath.Abs (cwd w) (Filepath.Join "repos" name)) as [absRepo|] eqn:Hr;
    simpl; [|exists []; by rewrite app_nil_r].
  destruct (Filepath.Abs (cwd w) (Filepath.Join ws name)) as [absTree|] eqn:Ht;
    simpl; [|exists []; by rewrite app_nil_r].
  pose proof (createWorktree_executed ws k repo logger w owner name absRepo absTree
                Hs Hr Ht) as Hex.
  unfold createWorktree in Hex. rewrite Hs, Hr, Ht in Hex.
  eexists [_]. split; [exact Hex|]. constructor; [|constructor].
  split; [done|]. by exists absTree.
Qed.

Lemma setupRepositoryWorktrees_range_cmds ws k repos logger w :
  ∃ cmds, executed (trace (setupRepositoryWorktrees_range E ws k repos logger w).1)
          = executed (trace w) ++ cmds ∧
          Forall (λ c, ∃ repo, repo ∈ repos ∧ worktree_cmd k repo c) cmds.
Proof.
  revert w. induction repos as [|repo rest IH]; intros w; simpl.
  { exists []. by rewrite app_nil_r. }
  destruct (createWorktree_cmds ws k repo logger w) as (c1 & Hc1 & HF1).
  assert (Forall (λ c, ∃ r, r ∈ repo :: rest ∧ worktree_cmd k r c) c1) as HF1'.
  { eapply Forall_impl; [exact HF1|]. intros c Hc. exists repo. split; [left|done]. }
  destruct (createWorktree E ws k repo logger w) as [w1 [err|]]; simpl in *.
  { by exists c1. }
  destruct (IH w1) as (c2 & Hc2 & HF2). exists (c1 ++ c2). split.
  - by rewrite Hc2, Hc1, app_assoc.
  - apply Forall_app. split; [done|].
    eapply Forall_impl; [exact HF2|]. intros c (r & Hr & Hc). exists r.
    split; [by right|done].
Qed.

(** C3, as amended. The branch of a worktree is named [warp/<k>-resolve]:
    for a repository whose URL has two parts, [createWorktree] runs exactly
    one command, [git worktree add -b warp/<k>-resolve <worktree> <branch>]
    in the repository's clone, the last argument being the branch
    configured for the repository; and every command that
    [setupRepositoryWorktrees] runs is such a command for one of the
    configured repositories. *)
Theorem worktree_branch_name ws k cfg logger w :
  (∀ repo owner name absRepo absTree,
     GoStrings.SplitN_slash_2 (URL repo) = [owner; name] →
     Filepath.Abs (cwd w) (Filepath.Join "repos" name) = Some absRepo →
     Filepath.Abs (cwd w) (Filepath.Join ws name) = Some absTree →
     executed (trace (createWorktree E ws k repo logger w).1)
     = executed (trace w) ++
       [{| Path := "git";
           Args := ["worktree"; "add"; "-b"; "warp/" +:+ k +:+ "-resolve";
                    absTree; Branch repo];
           Dir := absRepo |}]) ∧
  ∃ cmds,
    executed (trace (setupRepositoryWorktrees E ws k cfg logger w).1)
    = executed (trace w) ++ cmds ∧
    Forall (λ c, ∃ repo, repo ∈ Repositories cfg ∧ worktree_cmd k repo c) cmds.
Proof.
  split.
  - intros repo owner name absRepo absTree. apply createWorktree_executed.
  - unfold setupRepositoryWorktrees. case_decide.
    + exists []. simpl. rewrite executed_app. by split.
    + apply setupRepositoryWorktrees_range_cmds.
Qed.

Lemma executed_provisioning t :
  Forall provisioning_ev t → Forall (λ c, Path c = "git") (executed t).
Proof.
  induction 1 as [|ev t Hev _ IH]; [constructor|].
  change (ev :: t) with ([ev] ++ t). rewrite executed_app. apply Forall_app.
  split; [|done]. destruct ev; try done; by repeat constructor.
Qed.

Lemma os_Create_ok path w w1 :
  os_Create path w = (w1, None) →
  ∃ q, resolve w path = Some q ∧ fs w !! q ≠ Some DirNode ∧
       w1 = record (EvCreate path None) (set_fs (<[q := FileNode ""]> (fs w)) w).
Proof.
  unfold os_Create. destruct (resolve w path) as [q|]; [|done].
  destruct (fs w !! q) as [[|c]|] eqn:Hq; simpl.
  - done.
  - intros [= <-]. exists q. by rewrite Hq.
  - destruct (parent_errno w q); [done|]. intros [= <-]. exists q. by rewrite Hq.
Qed.

(** A clone that is missing makes [createWorktree] fail: git cannot be
    started in it. *)
Lemma createWorktree_missing_clone ws k repo logger w owner name absRepo absTree :
  GoStrings.SplitN_slash_2 (URL repo) = [owner; name] →
  Filepath.Abs (cwd w) (Filepath.Join "repos" name) = Some absRepo →
  Filepath.Abs (cwd w) (Filepath.Join ws name) = Some absTree →
  node_at w absRepo = None →
  ∃ w' err, createWorktree E ws k repo logger w = (w', Some err).
Proof.
  intros Hs Hr Ht Hn. unfold createWorktree. rewrite Hs, Hr, Ht.
  unfold CombinedOutput, run_child, chdir_errno. simpl.
  rewrite decide_False.
  2:{ eapply Abs_nonempty; [|exact Hr]. by apply Join_nonempty_l. }
  change (node_at (log InfoLevel
            (logger ++ [("repo", name); ("branch", branchName_of k);
                        ("worktreeDir", absTree)]) "creating git worktree" w) absRepo)
    with (node_at w absRepo).
  rewrite Hn. simpl. eauto.
Qed.

Lemma setupRepositoryWorktrees_range_app ws k l1 l2 logger w :
  setupRepositoryWorktrees_range E ws k (l1 ++ l2) logger w =
  match setupRepositoryWorktrees_range E ws k l1 logger w with
  | (w1, None) => setupRepositoryWorktrees_range E ws k l2 logger w1
  | r => r
  end.
Proof.
  revert w. induction l1 as [|repo l1 IH]; intros w; [done|]. simpl.
  destruct (createWorktree E ws k repo logger w) as [w1 [err|]]; [done|]. apply IH.
Qed.

(** C4. For a claimed issue whose log file could be created. A repository
    whose clone is missing makes [createWorktree] fail. When
    [createWorktree] fails for a configured repository, the ones before it
    having gone through, the set-up fails with an error that names the
    repository. And when the set-up fails, [runAgent] stops with the record
    of the failure, every child process it ran is a git command (the agent
    is not started), and in every later state of the process the workspace
    is still there and the handler, called on the same key, only reports
    that the issue was already handled. *)
Theorem provisioning_failure_keeps_claim issue cfg w w1 :
  claimed w (Key issue) →
  os_Create (Filepath.Join (Filepath.Join workspacesDir (Key issue)) "output.log") w
    = (w1, None) →
  (∀ repo owner name absRepo absTree w',
     GoStrings.SplitN_slash_2 (URL repo) = [owner; name] →
     Filepath.Abs (cwd w') (Filepath.Join "repos" name) = Some absRepo →
     Filepath.Abs (cwd w')
       (Filepath.Join (Filepath.Join workspacesDir (Key issue)) name) = Some absTree →
     node_at w' absRepo = None →
     ∃ w2 err,
       createWorktree E (Filepath.Join workspacesDir (Key issue)) (Key issue) repo
         (agent_logger (Filepath.Join workspacesDir (Key issue)) issue) w'
       = (w2, Some err)) ∧
  (∀ before repo after w' w2 err,
     Repositories cfg = before ++ repo :: after →
     setupRepositoryWorktrees_range E (Filepath.Join workspacesDir (Key issue))
       (Key issue) before
       (agent_logger (Filepath.Join workspacesDir (Key issue)) issue) w1 = (w', None) →
     createWorktree E (Filepath.Join workspacesDir (Key issue)) (Key issue) repo
       (agent_logger (Filepath.Join workspacesDir (Key issue)) issue) w'
     = (w2, Some err) →
     setupRepositoryWorktrees E (Filepath.Join workspacesDir (Key issue)) (Key issue)
       cfg (agent_logger (Filepath.Join workspacesDir (Key issue)) issue) w1
     = (w2, Some (wrapError ("failed to create worktree for " +:+ URL repo +:+ ": "
                             +:+ error_Error err) err))) ∧
  (∀ w2 err,
     setupRepositoryWorktrees E (Filepath.Join workspacesDir (Key issue)) (Key issue)
       cfg (agent_logger (Filepath.Join workspacesDir (Key issue)) issue) w1
     = (w2, Some err) →
     runAgent E (Filepath.Join workspacesDir (Key issue)) issue cfg w
     = log ErrorLevel
         (agent_logger (Filepath.Join workspacesDir (Key issue)) issue ++ Err err)
         "failed to setup repository worktrees" w2 ∧
     (∃ cmds,
        executed (trace (runAgent E (Filepath.Join workspacesDir (Key issue)) issue cfg w))
        = executed (trace w) ++ cmds ∧
        Forall (λ c, Path c = "git") cmds) ∧
     ∀ w3,
       rtc (step E) (runAgent E (Filepath.Join workspacesDir (Key issue)) issue cfg w) w3 →
       claimed w3 (Key issue) ∧
       ∀ issue' cfg', Key issue' = Key issue →
         handleIssue issue' cfg' w3 = already_handled issue' w3).
Proof.
  intros Hcl Hcreate. split; [|split].
  - intros repo owner name absRepo absTree w'. apply createWorktree_missing_clone.
  - intros before repo after w' w2 err Hrepos Hbefore Hfail.
    unfold setupRepositoryWorktrees. rewrite Hrepos, decide_False.
    2:{ rewrite length_app. simpl. lia. }
    rewrite setupRepositoryWorktrees_range_app, Hbefore. simpl. by rewrite Hfail.
  - intros w2 err Hsetup.
    assert (runAgent E (Filepath.Join workspacesDir (Key issue)) issue cfg w
            = log ErrorLevel
                (agent_logger (Filepath.Join workspacesDir (Key issue)) issue ++ Err err)
                "failed to setup repository worktrees" w2) as Hrun.
    { unfold runAgent. rewrite Hcreate.
      unfold agent_logger in Hsetup. by rewrite Hsetup. }
    split; [exact Hrun|]. split.
    + pose proof (setupRepositoryWorktrees_evolves E
                    (Filepath.Join workspacesDir (Key issue)) (Key issue) cfg
                    (agent_logger (Filepath.Join workspacesDir (Key issue)) issue) w1)
        as (_ & _ & t & Ht & HP).
      rewrite Hsetup in Ht. simpl in Ht.
      destruct (os_Create_ok _ _ _ Hcreate) as (q & _ & _ & Hw1).
      exists (executed t). split; [|by apply executed_provisioning].
      rewrite Hrun. simpl. rewrite Ht, Hw1. simpl.
      rewrite !executed_app. simpl. by rewrite !app_nil_r.
    + intros w3 Hrtc.
      assert (claimed w3 (Key issue)) as Hcl3.
      { eapply claimed_evolves; [apply (rtc_step_evolves E _ _ Hrtc)|].
        eapply claimed_evolves; [apply runAgent_evolves|]. exact Hcl. }
      split; [done|]. intros issue' cfg' Hk. apply handleIssue_claimed. by rewrite Hk.
Qed.

(** C8. With no repository configured, the set-up is one record at debug
    level and returns nil; and [runAgent], when the log file can be created
    and the issue can be marshalled, runs exactly one child process, the
    agent with the workspace as its directory, and leaves the file system
    as it was after the log file was created: the workspace holds no
    worktree. *)
Theorem no_repositories_still_dispatches ws issue cfg w w1 issueJSON :
  Repositories cfg = [] →
  os_Create (Filepath.Join ws "output.log") w = (w1, None) →
  json_MarshalIndent E issue = inl issueJSON →
  setupRepositoryWorktrees E ws (Key issue) cfg (agent_logger ws issue) w1
    = (log DebugLevel (agent_logger ws issue)
         "no repositories configured, skipping worktree setup" w1, None) ∧
  executed (trace (runAgent E ws issue cfg w))
    = executed (trace w) ++ [agent_cmd E ws (prompt_of issue issueJSON ws)] ∧
  Path (agent_cmd E ws (prompt_of issue issueJSON ws)) = "warp-cli-dev" ∧
  Dir (agent_cmd E ws (prompt_of issue issueJSON ws)) = ws ∧
  fs (runAgent E ws issue cfg w) = fs w1.
Proof.
  intros Hrepos Hcreate Hjson.
  assert (setupRepositoryWorktrees E ws (Key issue) cfg (agent_logger ws issue) w1
          = (log DebugLevel (agent_logger ws issue)
               "no repositories configured, skipping worktree setup" w1, None)) as Hsetup.
  { unfold setupRepositoryWorktrees. by rewrite Hrepos. }
  split; [exact Hsetup|].
  assert (∀ c w0, Path c = "warp-cli-dev" →
            fs (run_child E c w0).1 = fs w0) as Hfs.
  { intros c w0 Hc. unfold run_child. destruct (chdir_errno c w0); [done|].
    assert (git_worktree_target c w0 = None) as ->; [|done].
    unfold git_worktree_target. destruct (Args c) as [|? [|? [|? [|? [|? [|? [|]]]]]]]; try done.
    rewrite decide_False; [done|]. rewrite Hc. by intros [? _]. }
  destruct (os_Create_ok _ _ _ Hcreate) as (q & _ & _ & Hw1).
  unfold runAgent. rewrite Hcreate.
  unfold agent_logger in Hsetup. rewrite Hsetup, Hjson. unfold Run.
  match goal with |- context [run_child E ?c ?w0] =>
    pose proof (run_child_trace c w0) as Htr;
    pose proof (Hfs c w0 eq_refl) as Hf;
    destruct (run_child E c w0) as [w3 r] end.
  simpl in Htr, Hf.
  split; [|split; [done|split; [done|]]].
  - destruct (exit_err r); simpl; rewrite Htr; simpl; case_decide; simpl;
      rewrite Hw1; simpl; rewrite !executed_app; simpl; by rewrite !app_nil_r.
  - destruct (exit_err r); simpl; rewrite Hf; simpl; by case_decide.
Qed.

(** C10. The log file comes first. When [os.Create] succeeds, the file is
    there, empty, and nothing else has happened yet; the set-up of the
    worktrees starts from that state and keeps the file; so at the end of
    [runAgent] the file is there whatever happened after, and when the
    set-up fails, [runAgent] stops with the record of the failure, having
    run git commands only: the workspace that is left behind holds the log
    file and the agent was not started. *)
Theorem output_log_precedes_provisioning ws issue cfg w w1 q :
  resolve w (Filepath.Join ws "output.log") = Some q →
  os_Create (Filepath.Join ws "output.log") w = (w1, None) →
  (fs w1 !! q = Some (FileNode "") ∧
   trace w1 = trace w ++ [EvCreate (Filepath.Join ws "output.log") None]) ∧
  evolves provisioning_ev w1
    (setupRepositoryWorktrees E ws (Key issue) cfg (agent_logger ws issue) w1).1 ∧
  (∃ c t, fs (runAgent E ws issue cfg w) !! q = Some (FileNode c) ∧
          trace (runAgent E ws issue cfg w)
          = trace w ++ EvCreate (Filepath.Join ws "output.log") None :: t) ∧
  ∀ w2 err,
    setupRepositoryWorktrees E ws (Key issue) cfg (agent_logger ws issue) w1
      = (w2, Some err) →
    runAgent E ws issue cfg w
      = log ErrorLevel (agent_logger ws issue ++ Err err)
          "failed to setup repository worktrees" w2 ∧
    (∃ c, fs w2 !! q = Some (FileNode c)) ∧
    ∃ cmds, executed (trace (runAgent E ws issue cfg w)) = executed (trace w) ++ cmds ∧
            Forall (λ c, Path c = "git") cmds.
Proof.
  intros Hq Hcreate.
  destruct (os_Create_ok _ _ _ Hcreate) as (q' & Hq' & _ & Hw1).
  rewrite Hq in Hq'. injection Hq' as <-.
  assert (fs w1 !! q = Some (FileNode "")) as Hfile.
  { rewrite Hw1. simpl. apply lookup_insert_eq. }
  assert (trace w1 = trace w ++ [EvCreate (Filepath.Join ws "output.log") None]) as Htr1.
  { by rewrite Hw1. }
  pose proof (setupRepositoryWorktrees_evolves E ws (Key issue) cfg
                (agent_logger ws issue) w1) as Hsetup.
  split; [done|]. split; [exact Hsetup|]. split.
  - (* the whole of [runAgent] after the create only grows the world *)
    assert (∃ w', runAgent E ws issue cfg w = w' ∧ evolves agent_ev w1 w') as (w' & -> & Hev).
    { pose proof (runAgent_evolves E ws issue cfg w) as Hall.
      unfold runAgent in *. rewrite Hcreate in *.
      destruct (setupRepositoryWorktrees E ws (Key issue) cfg _ w1) as [w2 [err|]] eqn:Hs.
      - eexists; split; [done|].
        eapply evolves_trans; [|apply evolves_record; exact I].
        eapply evolves_mono; [apply provisioning_is_agent_ev|]. exact Hsetup.
      - eexists; split; [done|].
        assert (evolves agent_ev w1 w2) as H12.
        { eapply evolves_mono; [apply provisioning_is_agent_ev|]. exact Hsetup. }
        eapply evolves_trans; [exact H12|].
        destruct (json_MarshalIndent E issue) as [issueJSON|err].
        + unfold Run.
          match goal with |- context [run_child E ?c ?w0] =>
            pose proof (run_child_evolves E agent_ev c w0 I) as Hrun;
            assert (evolves agent_ev w2 w0) as H0;
            [|destruct (run_child E c w0) as [w3 r]] end.
          { case_decide.
            - apply evolves_record; exact I.
            - eapply evolves_trans; apply evolves_record; exact I. }
          simpl in Hrun. eapply evolves_trans; [exact H0|].
          eapply evolves_trans; [exact Hrun|].
          destruct (exit_err r); apply evolves_record; exact I.
        + apply evolves_record; exact I. }
    destruct Hev as (_ & Hfs & t & Ht & _).
    destruct (proj2 (Hfs q) _ Hfile) as [c Hc].
    exists c, t. split; [done|]. by rewrite Ht, Htr1, <- app_assoc.
  - intros w2 err Hs.
    assert (runAgent E ws issue cfg w
            = log ErrorLevel (agent_logger ws issue ++ Err err)
                "failed to setup repository worktrees" w2) as Hrun.
    { unfold runAgent. rewrite Hcreate. unfold agent_logger in Hs. by rewrite Hs. }
    split; [exact Hrun|]. rewrite Hs in Hsetup. simpl in Hsetup.
    destruct Hsetup as (_ & Hfs & t & Ht & HP). split.
    + exact (proj2 (Hfs q) _ Hfile).
    + exists (executed t). split; [|by apply executed_provisioning].
      rewrite Hrun. simpl. rewrite Ht, Htr1, !executed_app. simpl.
      by rewrite !app_nil_r.
Qed.

End Agent.

(** ** Start-up and the comment command *)

Section Startup.
Context (E : Env).

Lemma os_ReadFile_data path w data :
  node_at w path = Some (FileNode data) →
  os_ReadFile path w = (record (EvReadFile path None) w, inl data).
Proof. intros H. unfold os_ReadFile. by rewrite H. Qed.

Lemma os_ReadFile_absent path w :
  node_at w path = None →
  os_ReadFile path w
  = (record (EvReadFile path (Some ENOENT)) w, inr (PathError "open" path ENOENT)).
Proof. intros H. unfold os_ReadFile. by rewrite H. Qed.

(** C5, as amended. With the client settings and the label in place:
    when [repos.yaml] is absent, start-up goes on to the poll loop with an
    empty configuration, under which the set-up of worktrees does nothing;
    when the file is there and the YAML decoder rejects it, the command
    fails before anything of the poll loop has happened and the process
    exits with status 1; when the decoder accepts the file, start-up goes
    on to the poll loop with what was decoded, whatever the form of the
    URLs: a URL that does not split into two parts is only rejected by
    [createWorktree], for each issue, with no effect but the error; and
    when [repos.yaml] cannot be read, for a reason other than its absence
    (a directory is in its place), the command fails with [failed to read
    repos.yaml], nothing done but the attempt to read, and the process
    exits with status 1. *)
Theorem repos_config_at_startup fuel sel w :
  NewJiraClient E = None →
  viper_GetString E "label" ≠ "" →
  (node_at w "repos.yaml" = None →
     pollCmd_RunE E fuel sel w
     = pollForNewIssues E fuel (viper_GetString E "label") {| Repositories := [] |} sel
         (log WarnLevel [] "repos.yaml not found, repository setup will be skipped"
            (record (EvReadFile "repos.yaml" (Some ENOENT)) w)) ∧
     ∀ ws k logger w',
       setupRepositoryWorktrees E ws k {| Repositories := [] |} logger w'
       = (log DebugLevel logger "no repositories configured, skipping worktree setup" w',
          None)) ∧
  (∀ data err,
     node_at w "repos.yaml" = Some (FileNode data) →
     yaml_Unmarshal E data = inr err →
     Execute_poll E fuel sel w
     = Some (log ErrorLevel
               (Err (wrapError ("failed to parse repos.yaml: " +:+ error_Error err) err))
               "" (record (EvReadFile "repos.yaml" None) w),
             Exited 1)) ∧
  (∀ data cfg,
     node_at w "repos.yaml" = Some (FileNode data) →
     yaml_Unmarshal E data = inl cfg →
     pollCmd_RunE E fuel sel w
     = pollForNewIssues E fuel (viper_GetString E "label") cfg sel
         (log InfoLevel [("count", pretty (length (Repositories cfg)))]
            "loaded repository configuration"
            (record (EvReadFile "repos.yaml" None) w)) ∧
     ∀ repo ws k logger w',
       length (GoStrings.SplitN_slash_2 (URL repo)) ≠ 2 →
       createWorktree E ws k repo logger w'
       = (w', Some (errorString ("invalid repository URL format: " +:+ URL repo)))) ∧
  (∀ w1 err,
     os_ReadFile "repos.yaml" w = (w1, inr err) →
     os_IsNotExist err = false →
     (∃ en, en ≠ ENOENT ∧ err = PathError "open" "repos.yaml" en ∧
            w1 = record (EvReadFile "repos.yaml" (Some en)) w) ∧
     Execute_poll E fuel sel w
     = Some (log ErrorLevel
               (Err (wrapError ("failed to read repos.yaml: " +:+ error_Error err) err))
               "" w1,
             Exited 1)) ∧
  (node_at w "repos.yaml" = Some DirNode →
     Execute_poll E fuel sel w
     = Some (log ErrorLevel
               (Err (wrapError
                       ("failed to read repos.yaml: "
                        +:+ error_Error (PathError "open" "repos.yaml" EISDIR))
                       (PathError "open" "repos.yaml" EISDIR)))
               "" (record (EvReadFile "repos.yaml" (Some EISDIR)) w),
             Exited 1)).
Proof.
  intros Hclient Hlabel. split; [|split; [|split; [|split]]]; cycle 3.
  - intros w1 err Hread Hnot. split.
    + unfold os_ReadFile in Hread.
      destruct (node_at w "repos.yaml") as [[|data]|]; simplify_eq; try done.
      by exists EISDIR.
    + unfold Execute_poll, pollCmd_RunE, loadReposConfig.
      by rewrite Hclient, decide_False, Hread, Hnot by done.
  - intros Hn. unfold Execute_poll, pollCmd_RunE, loadReposConfig, os_ReadFile.
    by rewrite Hclient, decide_False, Hn by done.
  - intros Hn. split; [|done].
    unfold pollCmd_RunE, loadReposConfig.
    by rewrite Hclient, decide_False, (os_ReadFile_absent _ _ Hn) by done.
  - intros data err Hn Hy. unfold Execute_poll, pollCmd_RunE, loadReposConfig.
    by rewrite Hclient, decide_False, (os_ReadFile_data _ _ _ Hn), Hy by done.
  - intros data cfg Hn Hy. split.
    + unfold pollCmd_RunE, loadReposConfig.
      by rewrite Hclient, decide_False, (os_ReadFile_data _ _ _ Hn), Hy by done.
    + intros repo ws k logger w' Hlen. unfold createWorktree.
      by destruct (GoStrings.SplitN_slash_2 (URL repo)) as [|? [|? [|]]].
Qed.

Lemma append_empty_r (s : string) : s +:+ "" = s.
Proof.
  induction s as [|c s IH]; [done|].
  change (String c (s +:+ "") = String c s). by f_equal.
Qed.

Lemma append_empty_l (s : string) : "" +:+ s = s.
Proof. done. Qed.

(** C9. The payload [addComment] submits is the document with one
    paragraph that holds one text node with the comment's text, and the
    text of that document is the comment's text. *)
Theorem comment_payload_roundtrip issueKey commentText w :
  submitted (trace (addComment E issueKey commentText w).1)
    = submitted (trace w) ++ [(issueKey, comment_payload commentText)] ∧
  Body (comment_payload commentText)
    = CommentNode 1 "doc"
        [CommentNode 0 "paragraph" [CommentNode 0 "text" [] commentText] ""] "" ∧
  flatten_text (Body (comment_payload commentText)) = commentText ∧
  flatten_text (Body (comment_payload "done")) = "done".
Proof.
  split; [|split; [done|split; [|done]]].
  - unfold addComment.
    destruct (Comment_Add E _ issueKey _) as [id|err [[status body]|]]; simpl;
      unfold submitted; rewrite <- ?app_assoc, !omap_app; simpl;
      by rewrite ?app_nil_r.
  - simpl. by rewrite !append_empty_r, !append_empty_l.
Qed.

End Startup.

(** ** The claims that fail as they are written, on the small deployment *)

(** C2 as written fails. The workspaces directory is gone, so the handler
    fails on [A-1]; [A-2], on the same page, and [A-3], on the next page,
    are not handed to the handler in this tick, and the second page is not
    even requested. *)
Lemma handler_failure_skips_the_rest :
  ∃ w' err,
    searchIssues (Demo.env [Demo.A1; Demo.A2]) 5 "agent-assign"
      (λ issue, handleIssue issue Demo.no_repos) Demo.w_no_workspaces
    = Some (w', Some err) ∧
    err = PathError "mkdir" "workspaces/A-1" ENOENT ∧
    called (trace w') = [Demo.A1] ∧
    requested (trace w') = [""] ∧
    (Demo.A2 ∉ called (trace w')) ∧ (Demo.A3 ∉ called (trace w')).
Proof.
  eexists _, _. split; [vm_compute; reflexivity|].
  split; [reflexivity|]. split; [reflexivity|]. split; [reflexivity|].
  split; intros H; apply list_elem_of_In in H; vm_compute in H; intuition discriminate.
Qed.

(** C3 as written fails: the branch of the worktree of issue [A-1] is
    [warp/A-1-resolve], not [agent/A-1-resolve]. *)
Lemma branch_prefix_is_warp :
  executed (trace (createWorktree (Demo.env []) "workspaces/A-1" "A-1"
                     Demo.warp_server [] Demo.w_clone).1)
  = [{| Path := "git";
        Args := ["worktree"; "add"; "-b"; "warp/A-1-resolve";
                 "/app/workspaces/A-1/warp-server"; "main"];
        Dir := "/app/repos/warp-server" |}] ∧
  "warp/A-1-resolve" ≠ "agent/A-1-resolve".
Proof. split; [vm_compute; reflexivity|discriminate]. Qed.

(** C5 as written fails: with a [repos.yaml] whose one URL has no slash,
    start-up does not fail. The process goes into the poll loop, requests
    both pages and starts a goroutine for each issue. *)
Lemma url_without_slash_passes_startup :
  length (GoStrings.SplitN_slash_2 (URL Demo.no_slash)) ≠ 2 ∧
  ∃ w',
    Execute_poll (Demo.env [Demo.A1; Demo.A2]) 5 [ticker_C] Demo.w_yaml_no_slash
    = Some (w', Polling) ∧
    requested (trace w') = [""; "p2"] ∧
    started (trace w') = [Demo.A1; Demo.A2; Demo.A3] ∧
    (g_reposConfig <$> pending w')
    = [{| Repositories := [Demo.no_slash] |}; {| Repositories := [Demo.no_slash] |};
       {| Repositories := [Demo.no_slash] |}].
Proof.
  split; [vm_compute; discriminate|].
  eexists. split; [vm_compute; reflexivity|]. by repeat split.
Qed.

(** ** The theorems on the small deployment *)

(** After [A-1] was claimed, the handler only reports it. *)
Lemma handleIssue_claims_at_most_once_witness :
  handleIssue Demo.A1 Demo.no_repos Demo.w_claimed
  = already_handled Demo.A1 Demo.w_claimed.
Proof.
  refine (proj1 (proj2 (handleIssue_claims_at_most_once (Demo.env [])
                          Demo.w_ready Demo.w_claimed eq_refl
                          (rtc_once _ _ (step_handle _ Demo.A1 Demo.one_repo _)))
                   Demo.A1 Demo.no_repos _)).
  right. apply list_elem_of_In. vm_compute. by left.
Defined.

(** The handler fails on the first issue of the first page. *)
Lemma handler_failure_ends_drain_witness :
  ∃ w2 err,
    tick (Demo.env [Demo.A1; Demo.A2]) 5 "agent-assign" Demo.no_repos
      Demo.w_no_workspaces
    = Some (log ErrorLevel (Err err) "failed to search issues" w2).
Proof.
  eexists _, _.
  refine (proj1 (proj2 (handler_failure_ends_drain (Demo.env [Demo.A1; Demo.A2])
                          Demo.no_repos "agent-assign" Demo.w_no_workspaces
                          [] "" _ [] Demo.A1 [Demo.A2] "p2" _ _ _ 5
                          (pages_done_nil _ _ _ _ _) eq_refl eq_refl _ _))).
  - vm_compute. reflexivity.
  - simpl. lia.
Defined.

(** Two pages, the second with an empty cursor. *)
Lemma drain_ends_at_empty_cursor_witness :
  ∃ w',
    tick (Demo.env [Demo.A1; Demo.A2]) 5 "agent-assign" Demo.no_repos Demo.w_ready
    = Some (log InfoLevel [("label", "agent-assign")]
              "Finished searching for Jira issues" w') ∧
    drain_view (trace w')
    = [inl ""; inr Demo.A1; inr Demo.A2; inl "p2"; inr Demo.A3].
Proof.
  eexists.
  refine (proj1 (drain_ends_at_empty_cursor (Demo.env [Demo.A1; Demo.A2])
                   Demo.no_repos "agent-assign" Demo.w_ready 5)
            [([Demo.A1; Demo.A2], "p2")] "p2" _ [Demo.A3] _ _ eq_refl _ _).
  - eapply pages_done_cons; [reflexivity| |discriminate|apply pages_done_nil].
    vm_compute. reflexivity.
  - vm_compute. reflexivity.
  - simpl. lia.
Defined.

(** The tracker fails on the second page. *)
Lemma search_failure_ends_tick_witness :
  ∃ w',
    tick Demo.env_page2_down 5 "agent-assign" Demo.no_repos Demo.w_ready
    = Some (log ErrorLevel (Err (errorString "503 Service Unavailable"))
              "failed to search issues" w') ∧
    drain_view (trace (log ErrorLevel (Err (errorString "503 Service Unavailable"))
                         "failed to search issues" w'))
    = [inl ""; inr Demo.A1; inr Demo.A2; inl "p2"].
Proof.
  assert (∃ w, pages_done Demo.env_page2_down "agent-assign"
                 (λ i, handleIssue i Demo.no_repos) ""
                 (log InfoLevel [("label", "agent-assign")] "Searching for Jira issues"
                    Demo.w_ready)
                 [([Demo.A1; Demo.A2], "p2")] "p2" w) as [w Hp].
  { eexists. eapply pages_done_cons; [reflexivity| |discriminate|apply pages_done_nil].
    vm_compute. reflexivity. }
  destruct (search_failure_ends_tick Demo.env_page2_down Demo.no_repos "agent-assign"
              Demo.w_ready [([Demo.A1; Demo.A2], "p2")] "p2" w
              (errorString "503 Service Unavailable")
              (Some ("503 Service Unavailable", "try later")) 5 Hp eq_refl
              ltac:(simpl; lia)) as (w' & _ & Htick & _ & _ & _ & Hview).
  exists w'. split; [exact Htick|exact Hview].
Defined.

(** The command for the worktree of [warp-server] in the workspace of [A-1]. *)
Lemma worktree_branch_name_witness :
  executed (trace (createWorktree (Demo.env []) "workspaces/A-1" "A-1"
                     Demo.warp_server [] Demo.w_clone).1)
  = executed (trace Demo.w_clone) ++
    [{| Path := "git";
        Args := ["worktree"; "add"; "-b"; "warp/" +:+ "A-1" +:+ "-resolve";
                 "/app/workspaces/A-1/warp-server"; "main"];
        Dir := "/app/repos/warp-server" |}].
Proof.
  exact (proj1 (worktree_branch_name (Demo.env []) "workspaces/A-1" "A-1"
                  Demo.one_repo [] Demo.w_clone)
           Demo.warp_server "warpdotdev" "warp-server" "/app/repos/warp-server"
           "/app/workspaces/A-1/warp-server" eq_refl eq_refl eq_refl).
Defined.

(** [A-1] is claimed and the clone of [warp-server] is missing: after
    [runAgent] the claim is still there. *)
Lemma provisioning_failure_keeps_claim_witness :
  claimed (runAgent (Demo.env []) "workspaces/A-1" Demo.A1 Demo.one_repo Demo.w_claimed)
    "A-1".
Proof.
  assert (claimed Demo.w_claimed (Key Demo.A1)) as Hcl.
  { exists "/app/workspaces/A-1". split; [reflexivity|]. vm_compute. eauto. }
  assert (∃ w1, os_Create
                  (Filepath.Join (Filepath.Join workspacesDir (Key Demo.A1)) "output.log")
                  Demo.w_claimed = (w1, None) ∧
                cwd w1 = Some "/app" ∧
                node_at w1 "/app/repos/warp-server" = None) as (w1 & Hcreate & Hcwd & Hn).
  { eexists. split; [vm_compute; reflexivity|]. split; reflexivity. }
  destruct (provisioning_failure_keeps_claim (Demo.env []) Demo.A1 Demo.one_repo
              Demo.w_claimed w1 Hcl Hcreate) as (Hmissing & Hfirst & Hfail).
  destruct (Hmissing Demo.warp_server "warpdotdev" "warp-server"
              "/app/repos/warp-server" "/app/workspaces/A-1/warp-server" w1
              eq_refl ltac:(by rewrite Hcwd) ltac:(by rewrite Hcwd) Hn)
    as (w2 & err & Hcw).
  pose proof (Hfirst [] Demo.warp_server [] w1 w2 err eq_refl eq_refl Hcw) as Hsetup.
  exact (proj1 (proj2 (proj2 (Hfail w2 _ Hsetup)) _ (rtc_refl _ _))).
Defined.

(** Start-up with a [repos.yaml] that is not YAML, and with one that is a
    directory. *)
Lemma repos_config_at_startup_witness :
  (∃ w', Execute_poll (Demo.env []) 5 [ticker_C] Demo.w_yaml_garbage
         = Some (w', Exited 1)) ∧
  (∃ w', Execute_poll (Demo.env []) 5 [ticker_C] Demo.w_yaml_is_dir
         = Some (w', Exited 1) ∧
         trace w' = [EvReadFile "repos.yaml" (Some EISDIR);
                     EvLog ErrorLevel
                       [("error",
                         "failed to read repos.yaml: open repos.yaml: is a directory")]
                       ""]).
Proof.
  split.
  - eexists.
    exact (proj1 (proj2 (repos_config_at_startup (Demo.env []) 5 [ticker_C]
                           Demo.w_yaml_garbage eq_refl ltac:(discriminate)))
             "{" (errorString "yaml: unmarshal errors") eq_refl eq_refl).
  - eexists. split.
    + exact (proj2 (proj2 (proj2 (proj2
               (repos_config_at_startup (Demo.env []) 5 [ticker_C]
                  Demo.w_yaml_is_dir eq_refl ltac:(discriminate))))) eq_refl).
    + vm_compute. reflexivity.
Defined.

(** [A-1] is claimed and no repository is configured: the agent runs. *)
Lemma no_repositories_still_dispatches_witness :
  executed (trace (runAgent (Demo.env []) "workspaces/A-1" Demo.A1 Demo.no_repos
                     Demo.w_claimed))
  = executed (trace Demo.w_claimed) ++
    [agent_cmd (Demo.env []) "workspaces/A-1"
       (prompt_of Demo.A1 "{ key: A-1 }" "workspaces/A-1")].
Proof.
  assert (∃ w1, os_Create (Filepath.Join "workspaces/A-1" "output.log") Demo.w_claimed
                = (w1, None)) as [w1 Hcreate].
  { eexists. vm_compute. reflexivity. }
  exact (proj1 (proj2 (no_repositories_still_dispatches (Demo.env []) "workspaces/A-1"
                         Demo.A1 Demo.no_repos Demo.w_claimed w1 "{ key: A-1 }"
                         eq_refl Hcreate eq_refl))).
Defined.

(** [A-1] is claimed: at the end of [runAgent] the log file is there. *)
Lemma output_log_precedes_provisioning_witness :
  ∃ c t,
    fs (runAgent (Demo.env []) "workspaces/A-1" Demo.A1 Demo.one_repo Demo.w_claimed)
      !! "/app/workspaces/A-1/output.log" = Some (FileNode c) ∧
    trace (runAgent (Demo.env []) "workspaces/A-1" Demo.A1 Demo.one_repo Demo.w_claimed)
    = trace Demo.w_claimed ++
      EvCreate (Filepath.Join "workspaces/A-1" "output.log") None :: t.
Proof.
  assert (∃ w1, os_Create (Filepath.Join "workspaces/A-1" "output.log") Demo.w_claimed
                = (w1, None)) as [w1 Hcreate].
  { eexists. vm_compute. reflexivity. }
  exact (proj1 (proj2 (proj2 (output_log_precedes_provisioning (Demo.env [])
                                "workspaces/A-1" Demo.A1 Demo.one_repo Demo.w_claimed
                                w1 "/app/workspaces/A-1/output.log" eq_refl Hcreate)))).
Defined.

(** ** Start-up and the poll loop *)

Section PollLoop.
Context (E : Env).

(** [NewJiraClient] succeeds exactly when host, email and token are
    all set and the library accepts the host; the first setting that is
    missing, in that order, is the one reported. *)
Lemma NewJiraClient_ok_iff :
  (NewJiraClient E = None ↔
   viper_GetString E "host" ≠ "" ∧ viper_GetString E "email" ≠ "" ∧
   viper_GetString E "token" ≠ "" ∧
   atlassian_New E (viper_GetString E "host") = None) ∧
  (viper_GetString E "host" = "" →
   NewJiraClient E = Some (errorString "host is required")) ∧
  (viper_GetString E "host" ≠ "" → viper_GetString E "email" = "" →
   NewJiraClient E = Some (errorString "email is required")) ∧
  (viper_GetString E "host" ≠ "" → viper_GetString E "email" ≠ "" →
   viper_GetString E "token" = "" →
   NewJiraClient E = Some (errorString "token is required")).
Proof.
  unfold NewJiraClient. split; [split|split; [|split]].
  - repeat case_decide; try done.
    destruct (atlassian_New E _); [done|]. by intros _.
  - intros (H1 & H2 & H3 & H4). rewrite !decide_False by done. by rewrite H4.
  - intros H. by rewrite decide_True.
  - intros H1 H2. by rewrite decide_False, decide_True.
  - intros H1 H2 H3. by rewrite !decide_False, decide_True by done.
Qed.

(** The loop never returns an error: it waits, or it has returned nil
    after a cancellation. *)
Lemma pollForNewIssues_for_status fuel label cfg sel w w' r :
  pollForNewIssues_for E fuel label cfg sel w = Some (w', r) →
  (r = Returned None ∧ ctx_Done ∈ sel) ∨ (r = Waiting ∧ ctx_Done ∉ sel).
Proof.
  revert w. induction sel as [|[|] sel IH]; intros w; simpl.
  - intros [= <- <-]. right. split; [done|]. by intros ?%elem_of_nil.
  - intros [= <- <-]. left. split; [done|]. left.
  - destruct (tick E fuel label cfg w) as [w1|]; [|done]. intros H.
    destruct (IH _ H) as [[-> Hin]|[-> Hnin]].
    + left. split; [done|]. by right.
    + right. split; [done|]. intros Hin. apply Hnin.
      by apply elem_of_cons in Hin as [?|?].
Qed.

Lemma only_trace_refl P w : only_trace P w w.
Proof. repeat split. exists []. by rewrite app_nil_r. Qed.

Lemma only_trace_trans P w1 w2 w3 :
  only_trace P w1 w2 → only_trace P w2 w3 → only_trace P w1 w3.
Proof.
  intros (Hc1 & Hf1 & Hp1 & t1 & Ht1 & HP1) (Hc2 & Hf2 & Hp2 & t2 & Ht2 & HP2).
  repeat split; [congruence..|]. exists (t1 ++ t2). split.
  - by rewrite Ht2, Ht1, app_assoc.
  - by apply Forall_app.
Qed.

Lemma only_trace_record (P : Event → Prop) ev w : P ev → only_trace P w (record ev w).
Proof. intros HP. repeat split. exists [ev]. split; [done|]. by constructor. Qed.

Lemma only_trace_startup w w' :
  only_trace startup_ev w w' →
  fs w' = fs w ∧ requested (trace w') = requested (trace w) ∧
  spawned (trace w') = spawned (trace w) ∧ executed (trace w') = executed (trace w).
Proof.
  intros (_ & Hf & _ & t & -> & HP). split; [done|].
  unfold requested, spawned, executed. rewrite !omap_app.
  assert (∀ {A} (f : Event → option A), (∀ ev, startup_ev ev → f ev = None) →
            omap f t = []) as Hnone.
  { intros A f Hf0. induction HP as [|ev t0 Hev _ IH]; [done|].
    simpl. by rewrite (Hf0 ev Hev). }
  rewrite !Hnone, !app_nil_r; [done|by intros []..].
Qed.

Lemma os_ReadFile_only_trace path w : only_trace startup_ev w (os_ReadFile path w).1.
Proof.
  unfold os_ReadFile. destruct (node_at w path) as [[|data]|]; simpl;
    by apply only_trace_record.
Qed.

Lemma loadReposConfig_only_trace w : only_trace startup_ev w (loadReposConfig E w).1.
Proof.
  unfold loadReposConfig. pose proof (os_ReadFile_only_trace "repos.yaml" w) as H.
  destruct (os_ReadFile "repos.yaml" w) as [w1 [data|err]]; simpl in H.
  - destruct (yaml_Unmarshal E data) as [cfg|err]; simpl; [|done].
    eapply only_trace_trans; [exact H|]. by apply only_trace_record.
  - destruct (os_IsNotExist err); simpl; [|done].
    eapply only_trace_trans; [exact H|]. by apply only_trace_record.
Qed.

Lemma os_Mkdir_failed_only_trace path w w' err :
  os_Mkdir path w = (w', Some err) → only_trace startup_ev w w'.
Proof.
  unfold os_Mkdir. destruct (resolve w path) as [q|]; simpl.
  2:{ intros [= <- <-]. by apply only_trace_record. }
  destruct (fs w !! q); simpl.
  { intros [= <- <-]. by apply only_trace_record. }
  destruct (parent_errno w q); simpl; [|done].
  intros [= <- <-]. by apply only_trace_record.
Qed.

Lemma os_MkdirAll_failed_only_trace path w w' err :
  os_MkdirAll path w = (w', Some err) → only_trace startup_ev w w'.
Proof.
  unfold os_MkdirAll. destruct (node_at w path) as [[|c]|].
  - done.
  - intros [= <- <-]. apply only_trace_refl.
  - apply os_Mkdir_failed_only_trace.
Qed.

(** X1. The exit status of the poll command. Status 1 is a start-up error:
    the file system is as it was and no page was requested, no goroutine
    started and no child process run. Status 0 is a cancellation. Once the
    loop runs, no failure of a search or of the handler ends the process. *)
Theorem exit_status_of_poll fuel sel w w' st :
  Execute_poll E fuel sel w = Some (w', st) →
  (st = Exited 1 ∧ fs w' = fs w ∧ requested (trace w') = requested (trace w) ∧
   spawned (trace w') = spawned (trace w) ∧ executed (trace w') = executed (trace w)) ∨
  (st = Exited 0 ∧ ctx_Done ∈ sel) ∨
  (st = Polling ∧ ctx_Done ∉ sel).
Proof.
  unfold Execute_poll, pollCmd_RunE.
  assert (∀ x err, only_trace startup_ev w x →
            fs (log ErrorLevel (Err err) "" x) = fs w ∧
            requested (trace (log ErrorLevel (Err err) "" x)) = requested (trace w) ∧
            spawned (trace (log ErrorLevel (Err err) "" x)) = spawned (trace w) ∧
            executed (trace (log ErrorLevel (Err err) "" x)) = executed (trace w)) as Hstart.
  { intros x err Hx. apply only_trace_startup.
    eapply only_trace_trans; [exact Hx|]. by apply only_trace_record. }
  destruct (NewJiraClient E) as [err|].
  { intros [= <- <-]. left. split; [done|]. apply Hstart, only_trace_refl. }
  case_decide.
  { intros [= <- <-]. left. split; [done|]. apply Hstart, only_trace_refl. }
  pose proof (loadReposConfig_only_trace w) as Hload.
  destruct (loadReposConfig E w) as [w1 [cfg|err]]; simpl in Hload.
  2:{ intros [= <- <-]. left. split; [done|]. by apply Hstart. }
  unfold pollForNewIssues.
  destruct (os_MkdirAll workspacesDir w1) as [w2 [err|]] eqn:Hmk.
  { intros [= <- <-]. left. split; [done|]. apply Hstart.
    eapply only_trace_trans; [exact Hload|].
    eapply only_trace_trans; [by eapply os_MkdirAll_failed_only_trace|].
    by apply only_trace_record. }
  destruct (pollForNewIssues_for E fuel _ cfg sel w2) as [[w3 r]|] eqn:Hfor; [|done].
  destruct (pollForNewIssues_for_status _ _ _ _ _ _ _ Hfor) as [[-> Hin]|[-> Hnin]].
  - intros [= <- <-]. right. by left.
  - intros [= <- <-]. right. by right.
Qed.

(** X2. After a cancellation nothing more happens: the ticks before it
    run, the loop logs [polling stopped] and returns nil, and what the
    ticker would have delivered after it plays no part. *)
Theorem cancellation_stops_polling fuel label cfg before after w :
  ctx_Done ∉ before →
  pollForNewIssues_for E fuel label cfg (before ++ ctx_Done :: after) w
  = match pollForNewIssues_for E fuel label cfg before w with
    | Some (w1, _) => Some (log InfoLevel [] "polling stopped" w1, Returned None)
    | None => None
    end.
Proof.
  revert w. induction before as [|s before IH]; intros w Hnin; [done|].
  destruct s; simpl.
  - exfalso. apply Hnin. left.
  - destruct (tick E fuel label cfg w) as [w1|]; [|done]. apply IH.
    intros Hin. apply Hnin. by right.
Qed.

(** *** What a drain keeps *)

Lemma searchIssues_range_keeps (Inv : World → Prop) cb issues w :
  (∀ i x, Inv x → Inv (record (EvCallback i) x)) →
  (∀ i x, Inv x → Inv (cb i x).1) →
  Inv w → Inv (searchIssues_range cb issues w).1.
Proof.
  intros Hrec Hcb. revert w. induction issues as [|i rest IH]; intros w Hw; [done|].
  simpl. specialize (Hcb i (record (EvCallback i) w) (Hrec i w Hw)).
  destruct (cb i _) as [w1 [err|]]; simpl in *; [done|]. by apply IH.
Qed.

Lemma searchIssues_for_keeps label (Inv : World → Prop) cb fuel tok w w' r :
  (∀ ev x, drain_own_ev label ev → Inv x → Inv (record ev x)) →
  (∀ i x, Inv x → Inv (cb i x).1) →
  Inv w → searchIssues_for E fuel (jql_of label) cb tok w = Some (w', r) → Inv w'.
Proof.
  intros Hrec Hcb. revert tok w. induction fuel as [|fuel IH]; intros tok w Hw; [done|].
  simpl.
  assert (Inv (record (request_ev label tok) w)) as Hreq.
  { apply Hrec; [|done]. by repeat split. }
  destruct (SearchJQL E _ _ _ _ _ _) as [issues next|err response].
  - pose proof (searchIssues_range_keeps Inv cb issues _
                  (λ i x, Hrec (EvCallback i) x I) Hcb Hreq) as H1.
    destruct (searchIssues_range cb issues _) as [w1 [err|]]; simpl in H1.
    + by intros [= <- <-].
    + case_decide; [by intros [= <- <-]|]. by apply IH.
  - intros [= <- <-]. destruct response as [[status body]|]; [|done].
    by apply (Hrec (EvLog _ _ _)).
Qed.

Lemma tick_keeps label (Inv : World → Prop) cfg fuel w w' :
  (∀ ev x, drain_own_ev label ev → Inv x → Inv (record ev x)) →
  (∀ i x, Inv x → Inv (handleIssue i cfg x).1) →
  Inv w → tick E fuel label cfg w = Some w' → Inv w'.
Proof.
  intros Hrec Hcb Hw. unfold tick, searchIssues.
  assert (Inv (log InfoLevel [("label", label)] "Searching for Jira issues" w)) as H0.
  { by apply (Hrec (EvLog _ _ _)). }
  destruct (searchIssues_for E fuel _ _ "" _) as [[w1 [err|]]|] eqn:Hfor; [| |done].
  - intros [= <-]. apply (Hrec (EvLog _ _ _)); [done|].
    by eapply (searchIssues_for_keeps label Inv); [| |exact H0|exact Hfor].
  - intros [= <-]. apply (Hrec (EvLog _ _ _)); [done|].
    by eapply (searchIssues_for_keeps label Inv); [| |exact H0|exact Hfor].
Qed.

Lemma pollForNewIssues_for_keeps label (Inv : World → Prop) cfg fuel sel w w' r :
  (∀ ev x, drain_own_ev label ev → Inv x → Inv (record ev x)) →
  (∀ i x, Inv x → Inv (handleIssue i cfg x).1) →
  Inv w → pollForNewIssues_for E fuel label cfg sel w = Some (w', r) → Inv w'.
Proof.
  intros Hrec Hcb. revert w. induction sel as [|[|] sel IH]; intros w Hw; simpl.
  - by intros [= <- <-].
  - intros [= <- <-]. by apply (Hrec (EvLog _ _ _)).
  - destruct (tick E fuel label cfg w) as [w1|] eqn:Ht; [|done].
    apply IH. by eapply (tick_keeps label Inv).
Qed.

(** *** The handler *)

Lemma claimed_record ev w k : claimed (record ev w) k ↔ claimed w k.
Proof. done. Qed.

Lemma handleIssue_outcome issue cfg w :
  ((handleIssue issue cfg w).2 = None ↔ claimed (handleIssue issue cfg w).1 (Key issue)) ∧
  ((handleIssue issue cfg w).2 ≠ None →
   fs (handleIssue issue cfg w).1 = fs w ∧
   pending (handleIssue issue cfg w).1 = pending w ∧
   spawned (trace (handleIssue issue cfg w).1) = spawned (trace w)).
Proof.
  unfold handleIssue, os_Mkdir, claimed.
  set (ws := Filepath.Join workspacesDir (Key issue)).
  assert (∀ en x, spawned (trace (log ErrorLevel x "failed to create workspace directory"
                                    (record (EvMkdir ws (Some en)) w)))
                  = spawned (trace w)) as Hsp.
  { intros en x. unfold spawned. simpl. rewrite <- app_assoc, omap_app. simpl.
    by rewrite app_nil_r. }
  destruct (resolve w ws) as [q|] eqn:Hq; simpl.
  2:{ split; [|intros _; split; [done|split; [done|exact (Hsp _ _)]]]. split; [done|]. intros (q & Hq' & _).
      unfold resolve in *. simpl in Hq'. by rewrite Hq in Hq'. }
  destruct (fs w !! q) as [n|] eqn:Hn; simpl.
  { split; [|done]. split; [|done]. intros _. exists q. split; [done|]. simpl. eauto. }
  unfold parent_errno. destruct (fs w !! parent q) as [[|c]|]; simpl.
  - split; [|done]. split; [|done]. intros _. exists q. split; [done|]. simpl.
    rewrite lookup_insert_eq. eauto.
  - split; [|intros _; split; [done|split; [done|exact (Hsp _ _)]]]. split; [done|]. intros (q' & Hq' & Hs).
    unfold resolve in *. simpl in *. rewrite Hq in Hq'. injection Hq' as <-.
    rewrite Hn in Hs. by destruct Hs.
  - split; [|intros _; split; [done|split; [done|exact (Hsp _ _)]]]. split; [done|]. intros (q' & Hq' & Hs).
    unfold resolve in *. simpl in *. rewrite Hq in Hq'. injection Hq' as <-.
    rewrite Hn in Hs. by destruct Hs.
Qed.

(** X3. [handleIssue] returns nil exactly when the workspace of the key
    exists afterwards; and when it returns an error it has changed nothing
    but the trace: no directory, no goroutine. *)
Theorem handleIssue_nil_iff_claimed issue cfg w :
  ((handleIssue issue cfg w).2 = None ↔ claimed (handleIssue issue cfg w).1 (Key issue)) ∧
  ((handleIssue issue cfg w).2 ≠ None →
   fs (handleIssue issue cfg w).1 = fs w ∧
   pending (handleIssue issue cfg w).1 = pending w ∧
   spawned (trace (handleIssue issue cfg w).1) = spawned (trace w)).
Proof. apply handleIssue_outcome. Qed.

(** X4. An issue whose key is empty is never dispatched: its workspace
    path is the workspaces directory itself, so once that exists the
    handler reports the issue as already handled. *)
Theorem empty_key_is_never_dispatched issue cfg w n :
  Key issue = "" →
  node_at w workspacesDir = Some n →
  handleIssue issue cfg w = already_handled issue w.
Proof.
  intros Hk Hn. apply handleIssue_claimed. rewrite Hk.
  unfold node_at in Hn. destruct (resolve w workspacesDir) as [q|] eqn:Hq; [|done].
  exists q. split; [exact Hq|]. simpl in Hn. eauto.
Qed.

Lemma spawned_app t1 t2 : spawned (t1 ++ t2) = spawned t1 ++ spawned t2.
Proof. apply omap_app. Qed.

Lemma started_spawned t : started t = g_issue <$> spawned t.
Proof.
  induction t as [|ev t IH]; [done|]. change (ev :: t) with ([ev] ++ t).
  rewrite started_app, spawned_app, fmap_app, <- IH. by destruct ev.
Qed.

Lemma drain_own_not_go label ev : drain_own_ev label ev → not_go ev.
Proof. by destruct ev. Qed.

(** What the handler does to the file system and to the goroutines: either
    nothing, or one new directory and one new goroutine for the issue. *)
Lemma handleIssue_effect issue cfg w :
  (fs (handleIssue issue cfg w).1 = fs w ∧
   spawned (trace (handleIssue issue cfg w).1) = spawned (trace w) ∧
   pending (handleIssue issue cfg w).1 = pending w) ∨
  (∃ q g, fs w !! q = None ∧ resolve w (g_workspaceDir g) = Some q ∧
          fs (handleIssue issue cfg w).1 = <[q := DirNode]> (fs w) ∧
          started_by_handler cfg g ∧ g_issue g = issue ∧
          ¬ claimed w (Key issue) ∧
          spawned (trace (handleIssue issue cfg w).1) = spawned (trace w) ++ [g] ∧
          pending (handleIssue issue cfg w).1 = pending w ++ [g]).
Proof.
  destruct (handleIssue issue cfg w).2 as [err|] eqn:Herr.
  { left. destruct (proj2 (handleIssue_outcome issue cfg w)) as (H1 & H2 & H3);
      [by rewrite Herr|done]. }
  revert Herr. unfold handleIssue, os_Mkdir.
  set (ws := Filepath.Join workspacesDir (Key issue)).
  destruct (resolve w ws) as [q|] eqn:Hq; simpl; [|done].
  destruct (fs w !! q) as [n|] eqn:Hn; simpl.
  { intros _. left. unfold spawned. simpl. rewrite <- app_assoc, omap_app. simpl.
    by rewrite app_nil_r. }
  destruct (parent_errno w q) as [en|] eqn:Hpe; simpl.
  { unfold parent_errno in Hpe. destruct (fs w !! parent q) as [[|c]|]; by simplify_eq. }
  intros _. right.
  exists q, {| g_workspaceDir := ws; g_issue := issue; g_reposConfig := cfg |}.
  split; [done|]. split; [done|]. split; [done|].
  split; [by split|]. split; [done|]. split.
  - intros (q' & Hq' & Hs). fold ws in Hq'. rewrite Hq in Hq'. injection Hq' as <-.
    rewrite Hn in Hs. by destruct Hs.
  - split; [|done]. rewrite !spawned_app. simpl. by rewrite !app_nil_r.
Qed.

(** X5. What one tick does and does not do. It logs, requests the first
    page with an empty token, and from there on only logs, requests pages
    with the same query, fields and page size, calls the handler, makes
    directories and starts goroutines: it runs no child process and creates
    no file. The working directory stays, and the file system changes only
    by new directories. *)
Theorem tick_only_claims fuel label cfg w w' :
  tick E fuel label cfg w = Some w' →
  cwd w' = cwd w ∧
  (∀ q, fs w' !! q = fs w !! q ∨ (fs w !! q = None ∧ fs w' !! q = Some DirNode)) ∧
  executed (trace w') = executed (trace w) ∧
  ∃ t, trace w'
       = trace w ++ EvLog InfoLevel [("label", label)] "Searching for Jira issues"
                 :: request_ev label "" :: t ∧
       Forall (tick_ev label) t.
Proof.
  intros Htick.
  (* the working directory and the file system *)
  assert (cwd w' = cwd w ∧
          ∀ q, fs w' !! q = fs w !! q ∨ (fs w !! q = None ∧ fs w' !! q = Some DirNode))
    as [Hcwd Hfs].
  { eapply (tick_keeps label
              (λ x, cwd x = cwd w ∧
                    ∀ q, fs x !! q = fs w !! q ∨
                         (fs w !! q = None ∧ fs x !! q = Some DirNode)));
      [| | |exact Htick].
    - by intros ev x _ Hx.
    - intros i x [Hc Hf]. split.
      { destruct (handleIssue_evolves i cfg x) as (-> & _). exact Hc. }
      destruct (handleIssue_effect i cfg x) as [(-> & _)|(q0 & g & Hn & _ & -> & _)]; [done|].
      intros q. destruct (decide (q0 = q)) as [<-|Hne].
      + rewrite lookup_insert_eq. right. split; [|done].
        destruct (Hf q0) as [<-|[? ?]]; [done|done].
      + rewrite lookup_insert_ne by done. apply Hf.
    - split; [done|]. by left. }
  (* the events after the first request *)
  assert (∃ t, trace w'
               = (trace w ++ [EvLog InfoLevel [("label", label)] "Searching for Jira issues";
                              request_ev label ""]) ++ t ∧
               Forall (tick_ev label) t) as (t & Ht & HP).
  { set (Inv := λ x : World,
         ∃ t, trace x
              = (trace w ++ [EvLog InfoLevel [("label", label)] "Searching for Jira issues";
                             request_ev label ""]) ++ t ∧
              Forall (tick_ev label) t).
    assert (∀ ev x, drain_own_ev label ev → Inv x → Inv (record ev x)) as Hrec.
    { intros ev x Hev (t & Ht & HP). exists (t ++ [ev]). split.
      - simpl. by rewrite Ht, <- !app_assoc.
      - apply Forall_app. split; [done|]. constructor; [by left|constructor]. }
    assert (∀ i x, Inv x → Inv (handleIssue i cfg x).1) as Hcb.
    { intros i x (t & Ht & HP).
      destruct (handleIssue_evolves i cfg x) as (_ & _ & t1 & Ht1 & HP1).
      exists (t ++ t1). split.
      - by rewrite Ht1, Ht, <- !app_assoc.
      - apply Forall_app. split; [done|].
        eapply Forall_impl; [exact HP1|]. intros ev Hev. by right. }
    revert Htick. unfold tick, searchIssues. destruct fuel as [|fuel]; [done|]. simpl.
    assert (Inv (record (request_ev label "")
                   (log InfoLevel [("label", label)] "Searching for Jira issues" w)))
      as H0.
    { exists []. simpl. by rewrite <- !app_assoc. }
    destruct (SearchJQL E _ _ _ _ _ _) as [issues next|err response].
    - pose proof (searchIssues_range_keeps Inv (λ i, handleIssue i cfg) issues _
                    (λ i x, Hrec (EvCallback i) x I) Hcb H0) as H1.
      destruct (searchIssues_range _ issues _) as [w1 [err|]]; simpl in H1.
      + intros [= <-]. by apply (Hrec (EvLog _ _ _)).
      + case_decide.
        * intros [= <-]. by apply (Hrec (EvLog _ _ _)).
        * destruct (searchIssues_for E fuel _ _ next w1) as [[w2 [err|]]|] eqn:Hfor;
            [| |done].
          -- intros [= <-]. apply (Hrec (EvLog _ _ _)); [done|].
             by eapply (searchIssues_for_keeps label Inv); [| |exact H1|exact Hfor].
          -- intros [= <-]. apply (Hrec (EvLog _ _ _)); [done|].
             by eapply (searchIssues_for_keeps label Inv); [| |exact H1|exact Hfor].
    - intros [= <-]. apply (Hrec (EvLog _ _ _)); [done|].
      destruct response as [[status body]|]; [|done]. by apply (Hrec (EvLog _ _ _)). }
  split; [done|]. split; [done|]. split.
  - rewrite Ht, !executed_app. simpl.
    assert (executed t = []) as ->; [|by rewrite !app_nil_r].
    clear Ht. induction HP as [|ev t0 Hev _ IH]; [done|].
    change (ev :: t0) with ([ev] ++ t0). rewrite executed_app, IH, app_nil_r.
    destruct ev; try done; by destruct Hev.
  - exists t. split; [|done]. by rewrite Ht, <- app_assoc.
Qed.

(** X6. The goroutines of the poll loop. Starting with none, after any
    number of ticks the goroutines started are for pairwise different keys,
    each has the workspace of its key as directory and the configuration
    the loop was given, and all of them are pending: the loop waits for
    none. *)
Theorem poll_loop_goroutines fuel label cfg sel w w' r :
  spawned (trace w) = [] →
  pollForNewIssues E fuel label cfg sel w = Some (w', r) →
  NoDup (Key <$> started (trace w')) ∧
  Forall (started_by_handler cfg) (spawned (trace w')) ∧
  pending w' = pending w ++ spawned (trace w').
Proof.
  intros H0 Hpoll.
  set (Inv := λ x : World,
       dedup_inv x ∧ Forall (started_by_handler cfg) (spawned (trace x)) ∧
       pending x = pending w ++ spawned (trace x)).
  assert (∀ ev x, not_go ev → Inv x → Inv (record ev x)) as Hrec.
  { intros ev x Hev (Hd & HF & Hp). unfold Inv.
    assert (spawned (trace (record ev x)) = spawned (trace x)) as ->.
    { simpl. rewrite spawned_app. destruct ev; try done; by rewrite app_nil_r. }
    split; [by apply dedup_inv_record|]. by split. }
  assert (∀ i x, Inv x → Inv (handleIssue i cfg x).1) as Hcb.
  { intros i x (Hd & HF & Hp). split; [by apply handleIssue_dedup_inv|].
    destruct (handleIssue_effect i cfg x)
      as [(_ & -> & ->)|(q0 & g & _ & _ & _ & Hg & _ & _ & -> & ->)]; [done|].
    split; [apply Forall_app; split; [done|by constructor]|].
    by rewrite Hp, app_assoc. }
  assert (Inv w) as Hw.
  { split; [apply dedup_inv_fresh; by rewrite started_spawned, H0|].
    rewrite H0. split; [constructor|by rewrite app_nil_r]. }
  assert (Inv w') as (Hd & HF & Hp); [|split; [apply Hd|done]].
  revert Hpoll. unfold pollForNewIssues, os_MkdirAll.
  destruct (node_at w workspacesDir) as [[|c]|].
  - eapply (pollForNewIssues_for_keeps label Inv); [|exact Hcb|exact Hw].
    intros ev x Hev. apply Hrec. by eapply drain_own_not_go.
  - intros [= <- <-]. by apply (Hrec (EvLog _ _ _)).
  - assert (Inv (os_Mkdir workspacesDir w).1) as Hmk.
    { unfold os_Mkdir. destruct (resolve w workspacesDir) as [q|]; simpl;
        [|by apply (Hrec (EvMkdir _ _))].
      destruct (fs w !! q) eqn:Hq; simpl; [by apply (Hrec (EvMkdir _ _))|].
      destruct (parent_errno w q); simpl; [by apply (Hrec (EvMkdir _ _))|].
      destruct Hw as (Hd & HF & Hp). split; [|split].
      - eapply (dedup_inv_evolves not_go); [done| |exact Hd].
        apply evolves_record_fs; [done|]. apply fs_grows_insert_dir.
        intros c. by rewrite Hq.
      - simpl. by rewrite spawned_app, app_nil_r.
      - simpl. by rewrite spawned_app, app_nil_r. }
    destruct (os_Mkdir workspacesDir w) as [w1 [err|]]; simpl in Hmk.
    + intros [= <- <-]. by apply (Hrec (EvLog _ _ _)).
    + eapply (pollForNewIssues_for_keeps label Inv); [|exact Hcb|exact Hmk].
      intros ev x Hev. apply Hrec. by eapply drain_own_not_go.
Qed.

(** X7. Claims outlive the process. Started in a world where the
    workspace of key [k] exists, whatever the trace so far, the poll loop
    starts no goroutine for [k], over any number of ticks, and the
    workspace is still there at the end. *)
Theorem claims_survive_restart fuel label cfg sel w w' r k :
  claimed w k →
  pollForNewIssues E fuel label cfg sel w = Some (w', r) →
  claimed w' k ∧
  ∃ new, spawned (trace w') = spawned (trace w) ++ new ∧
         k ∉ (Key ∘ g_issue) <$> new.
Proof.
  intros Hk Hpoll.
  set (Inv := λ x : World,
       claimed x k ∧
       ∃ new, spawned (trace x) = spawned (trace w) ++ new ∧
              k ∉ (Key ∘ g_issue) <$> new).
  assert (∀ ev x, not_go ev → Inv x → Inv (record ev x)) as Hrec.
  { intros ev x Hev (Hc & new & Hn & Hnot). split; [done|]. exists new.
    split; [|done]. simpl. rewrite spawned_app, Hn.
    destruct ev; try done; by rewrite app_nil_r. }
  assert (∀ i x, Inv x → Inv (handleIssue i cfg x).1) as Hcb.
  { intros i x (Hc & new & Hn & Hnot). split.
    { eapply claimed_evolves; [apply handleIssue_evolves|exact Hc]. }
    destruct (handleIssue_effect i cfg x)
      as [(_ & -> & _)|(q0 & g & _ & _ & _ & _ & Hg & Hncl & -> & _)].
    - by exists new.
    - exists (new ++ [g]). split; [by rewrite Hn, app_assoc|].
      rewrite fmap_app. intros Hin. apply elem_of_app in Hin as [Hin|Hin]; [done|].
      apply list_elem_of_singleton in Hin. simpl in Hin. subst i k. done. }
  assert (Inv w) as Hw.
  { split; [done|]. exists []. split; [by rewrite app_nil_r|]. by intros ?%elem_of_nil. }
  assert (Inv w') as HI; [|exact HI].
  revert Hpoll. unfold pollForNewIssues, os_MkdirAll.
  destruct (node_at w workspacesDir) as [[|c]|].
  - eapply (pollForNewIssues_for_keeps label Inv); [|exact Hcb|exact Hw].
    intros ev x Hev. apply Hrec. by eapply drain_own_not_go.
  - intros [= <- <-]. by apply (Hrec (EvLog _ _ _)).
  - assert (Inv (os_Mkdir workspacesDir w).1) as Hmk.
    { split.
      - eapply claimed_evolves; [|exact Hk].
        apply (os_Mkdir_evolves any_ev). by intros.
      - exists []. split; [|by intros ?%elem_of_nil].
        destruct (os_Mkdir_evolves not_go workspacesDir w (λ _, I))
          as (_ & _ & t & -> & Ht).
        rewrite spawned_app. f_equal.
        clear -Ht. induction Ht as [|ev t Hev _ IH]; [done|].
        change (ev :: t) with ([ev] ++ t). rewrite spawned_app, IH.
        by destruct ev. }
    destruct (os_Mkdir workspacesDir w) as [w1 [err|]]; simpl in Hmk.
    + intros [= <- <-]. by apply (Hrec (EvLog _ _ _)).
    + eapply (pollForNewIssues_for_keeps label Inv); [|exact Hcb|exact Hmk].
      intros ev x Hev. apply Hrec. by eapply drain_own_not_go.
Qed.

(** X8. The drain has no bound of its own. Against a tracker that answers
    every request with an empty page and a cursor, no amount of fuel lets
    the tick return: the loop goes on requesting pages. *)
Theorem endless_cursor_never_returns label cfg w :
  (∀ t tok, ∃ next,
     SearchJQL E t (jql_of label) search_fields search_expands pageSize tok
       = SearchOK [] next ∧ next ≠ "") →
  ∀ fuel, tick E fuel label cfg w = None.
Proof.
  intros Hsrv fuel.
  assert (∀ tok x, searchIssues_for E fuel (jql_of label)
                     (λ i, handleIssue i cfg) tok x = None) as Hfor.
  { induction fuel as [|fuel IH]; intros tok x; [done|]. simpl.
    destruct (Hsrv (trace x) tok) as (next & -> & Hne). simpl.
    rewrite decide_False by done. apply IH. }
  unfold tick, searchIssues. by rewrite Hfor.
Qed.

End PollLoop.

(** ** More on worktrees and the agent *)

Section Worktrees.
Context (E : Env).

Lemma cut_slash_Some s a b : GoStrings.cut_slash s = Some (a, b) → s = a +:+ "/" +:+ b.
Proof.
  revert a. induction s as [|c s IH]; intros a; simpl; [done|].
  case_decide as Hc.
  - intros [= <- <-]. by subst c.
  - destruct (GoStrings.cut_slash s) as [[a0 b0]|]; [|done].
    intros [= <- <-]. rewrite (IH a0 eq_refl) at 1. done.
Qed.

Lemma cut_slash_None s a b : GoStrings.cut_slash s = None → s ≠ a +:+ "/" +:+ b.
Proof.
  revert a. induction s as [|c s IH]; intros a; simpl.
  - intros _. by destruct a.
  - case_decide as Hc; [done|].
    destruct (GoStrings.cut_slash s) as [[a0 b0]|] eqn:Hs; [done|]. intros _.
    destruct a as [|c' a]; intros Heq.
    + change ("" +:+ "/" +:+ b) with (String "/" b) in Heq. by simplify_eq.
    + change (String c' a +:+ "/" +:+ b) with (String c' (a +:+ "/" +:+ b)) in Heq.
      injection Heq as _ Heq. by eapply IH.
Qed.

Lemma cut_slash_before s a b : GoStrings.cut_slash s = Some (a, b) → GoStrings.cut_slash a = None.
Proof.
  revert a. induction s as [|c s IH]; intros a; simpl; [done|].
  case_decide as Hc; [by intros [= <- <-]|].
  destruct (GoStrings.cut_slash s) as [[a0 b0]|]; [|done].
  intros [= <- <-]. simpl. rewrite decide_False by done. by rewrite (IH a0 eq_refl).
Qed.

Lemma cut_slash_app a b :
  GoStrings.cut_slash a = None → GoStrings.cut_slash (a +:+ "/" +:+ b) = Some (a, b).
Proof.
  induction a as [|c a IH].
  - intros _. reflexivity.
  - change (String c a +:+ "/" +:+ b) with (String c (a +:+ "/" +:+ b)). simpl.
    case_decide; [done|].
    destruct (GoStrings.cut_slash a) as [[? ?]|]; [done|]. intros _. by rewrite IH.
Qed.

(** X9. The URL check of [createWorktree] asks for a slash and for nothing
    else. A URL without a slash is rejected with no effect, and only such a
    URL is; for any other URL the owner is what precedes the first slash
    and the repository name is all that follows it (it may be empty, or
    have slashes of its own). *)
Theorem url_check_asks_for_a_slash ws k repo logger w :
  ((∀ a b, URL repo ≠ a +:+ "/" +:+ b) ↔
   createWorktree E ws k repo logger w
   = (w, Some (errorString ("invalid repository URL format: " +:+ URL repo)))) ∧
  (∀ owner name,
     GoStrings.SplitN_slash_2 (URL repo) = [owner; name] ↔
     URL repo = owner +:+ "/" +:+ name ∧ ∀ a b, owner ≠ a +:+ "/" +:+ b).
Proof.
  split.
  - unfold createWorktree, GoStrings.SplitN_slash_2.
    destruct (GoStrings.cut_slash (URL repo)) as [[a b]|] eqn:Hc; split.
    + intros Hno. destruct (Hno a b). by apply cut_slash_Some.
    + destruct (Filepath.Abs (cwd w) (Filepath.Join "repos" b)); [|done].
      destruct (Filepath.Abs (cwd w) (Filepath.Join ws b)); [|done].
      unfold CombinedOutput. destruct (run_child E _ _) as [w1 r].
      by destruct (exit_err r).
    + done.
    + intros _ a b. by apply cut_slash_None.
  - intros owner name. unfold GoStrings.SplitN_slash_2.
    destruct (GoStrings.cut_slash (URL repo)) as [[a b]|] eqn:Hc; split.
    + intros [= <- <-]. split; [by apply cut_slash_Some|].
      intros x y. apply cut_slash_None. by eapply cut_slash_before.
    + intros [Hurl Hown].
      assert (GoStrings.cut_slash owner = None) as Ho.
      { destruct (GoStrings.cut_slash owner) as [[x y]|] eqn:Hx; [|done].
        destruct (Hown x y). by apply cut_slash_Some. }
      rewrite Hurl, (cut_slash_app _ name Ho) in Hc. by simplify_eq.
    + done.
    + intros [Hurl _]. by destruct (cut_slash_None _ owner name Hc).
Qed.

(** The command of one [createWorktree], if it gets as far as git. *)
Lemma createWorktree_command ws k repo logger w :
  executed (trace (createWorktree E ws k repo logger w).1)
  = executed (trace w) ++ option_list (worktree_command (cwd w) ws k repo) ∧
  cwd (createWorktree E ws k repo logger w).1 = cwd w ∧
  ((createWorktree E ws k repo logger w).2 = None →
   is_Some (worktree_command (cwd w) ws k repo)).
Proof.
  split; [|split].
  - unfold worktree_command.
    destruct (GoStrings.SplitN_slash_2 (URL repo)) as [|owner [|name [|]]] eqn:Hs;
      try (unfold createWorktree; rewrite Hs; simpl; by rewrite app_nil_r).
    destruct (Filepath.Abs (cwd w) (Filepath.Join "repos" name)) as [absRepo|] eqn:Hr.
    2:{ unfold createWorktree. rewrite Hs, Hr. simpl. by rewrite app_nil_r. }
    destruct (Filepath.Abs (cwd w) (Filepath.Join ws name)) as [absTree|] eqn:Ht.
    2:{ unfold createWorktree. rewrite Hs, Hr, Ht. simpl. by rewrite app_nil_r. }
    exact (createWorktree_executed E ws k repo logger w owner name absRepo absTree Hs Hr Ht).
  - by destruct (createWorktree_evolves E ws k repo logger w) as (-> & _).
  - unfold createWorktree, worktree_command.
    destruct (GoStrings.SplitN_slash_2 (URL repo)) as [|owner [|name [|]]]; try done.
    destruct (Filepath.Abs (cwd w) (Filepath.Join "repos" name)); [|done].
    destruct (Filepath.Abs (cwd w) (Filepath.Join ws name)); [|done]. eauto.
Qed.

Lemma setupRepositoryWorktrees_range_order ws k repos logger w :
  (∃ n, executed (trace (setupRepositoryWorktrees_range E ws k repos logger w).1)
        = executed (trace w) ++ omap (worktree_command (cwd w) ws k) (take n repos)) ∧
  ((setupRepositoryWorktrees_range E ws k repos logger w).2 = None →
   ∃ cmds, executed (trace (setupRepositoryWorktrees_range E ws k repos logger w).1)
           = executed (trace w) ++ cmds ∧
           Forall2 (λ repo c, worktree_command (cwd w) ws k repo = Some c) repos cmds).
Proof.
  revert w. induction repos as [|repo rest IH]; intros w; simpl.
  { split; [exists 0|intros _; exists []]; rewrite app_nil_r; [done|]. split; [done|constructor]. }
  destruct (createWorktree_command ws k repo logger w) as (Hex & Hcwd & Hok).
  destruct (createWorktree E ws k repo logger w) as [w1 [err|]]; simpl in *.
  - split; [|done]. exists 1. simpl. rewrite Hex.
    by destruct (worktree_command (cwd w) ws k repo).
  - destruct (IH w1) as [[n Hn] Hall]. rewrite Hcwd in Hn, Hall.
    destruct (Hok eq_refl) as [c Hc]. rewrite Hc in Hex. simpl in Hex. split.
    + exists (S n). simpl. rewrite Hc, Hn, Hex, <- app_assoc. done.
    + intros Hnil. destruct (Hall Hnil) as (cmds & Hcmds & HF).
      exists (c :: cmds). split; [by rewrite Hcmds, Hex, <- app_assoc|].
      by constructor.
Qed.

(** X10. [setupRepositoryWorktrees] goes through the repositories in the
    order of the configuration and stops at the first failure: the git
    commands it runs are those of a front part of the list, in order, and
    when it returns nil it has run exactly one command per repository. *)
Theorem worktrees_in_configuration_order ws k cfg logger w :
  (∃ n, executed (trace (setupRepositoryWorktrees E ws k cfg logger w).1)
        = executed (trace w)
          ++ omap (worktree_command (cwd w) ws k) (take n (Repositories cfg))) ∧
  ((setupRepositoryWorktrees E ws k cfg logger w).2 = None →
   ∃ cmds, executed (trace (setupRepositoryWorktrees E ws k cfg logger w).1)
           = executed (trace w) ++ cmds ∧
           Forall2 (λ repo c, worktree_command (cwd w) ws k repo = Some c)
             (Repositories cfg) cmds).
Proof.
  unfold setupRepositoryWorktrees. case_decide as Hlen.
  - destruct (Repositories cfg); [|done]. simpl. split.
    + exists 0. by rewrite executed_app.
    + intros _. exists []. rewrite executed_app. split; [done|constructor].
  - apply setupRepositoryWorktrees_range_order.
Qed.

Lemma runAgent_children ws issue cfg w :
  ∃ gits agents,
    executed (trace (runAgent E ws issue cfg w)) = executed (trace w) ++ gits ++ agents ∧
    Forall (λ c, Path c = "git") gits ∧
    match os_Create (Filepath.Join ws "output.log") w with
    | (w1, None) =>
        match setupRepositoryWorktrees E ws (Key issue) cfg (agent_logger ws issue) w1 with
        | (_, None) =>
            match json_MarshalIndent E issue with
            | inl issueJSON => agents = [agent_cmd E ws (prompt_of issue issueJSON ws)]
            | inr _ => agents = []
            end
        | (_, Some _) => agents = []
        end
    | (_, Some _) => agents = [] ∧ gits = []
    end.
Proof.
  unfold runAgent.
  destruct (os_Create (Filepath.Join ws "output.log") w) as [w1 [err|]] eqn:Hcreate.
  { exists [], []. split; [|split; [constructor|done]]. simpl.
    revert Hcreate. unfold os_Create.
    destruct (resolve w _) as [q|]; simpl.
    2:{ intros [= <- <-]. simpl. by rewrite !executed_app, !app_nil_r. }
    destruct (fs w !! q) as [[|c]|]; simpl; try done.
    - intros [= <- <-]. simpl. by rewrite !executed_app, !app_nil_r.
    - destruct (parent_errno w q); [|done].
      intros [= <- <-]. simpl. by rewrite !executed_app, !app_nil_r. }
  destruct (os_Create_ok _ _ _ Hcreate) as (q & _ & _ & Hw1).
  assert (executed (trace w1) = executed (trace w)) as Hex1.
  { rewrite Hw1. simpl. by rewrite executed_app, app_nil_r. }
  pose proof (setupRepositoryWorktrees_evolves E ws (Key issue) cfg
                (agent_logger ws issue) w1) as (_ & _ & t & Ht & HP).
  unfold agent_logger in *.
  destruct (setupRepositoryWorktrees E ws (Key issue) cfg _ w1) as [w2 [err|]];
    simpl in Ht.
  { exists (executed t), []. split; [|split; [by apply executed_provisioning|done]].
    simpl. by rewrite Ht, !executed_app, Hex1, !app_nil_r. }
  destruct (json_MarshalIndent E issue) as [issueJSON|err].
  2:{ exists (executed t), []. split; [|split; [by apply executed_provisioning|done]].
      simpl. by rewrite Ht, !executed_app, Hex1, !app_nil_r. }
  exists (executed t), [agent_cmd E ws (prompt_of issue issueJSON ws)].
  split; [|split; [by apply executed_provisioning|done]].
  unfold Run.
  match goal with |- context [run_child E ?c ?w0] =>
    pose proof (run_child_trace E c w0) as Htr;
    destruct (run_child E c w0) as [w3 r] end.
  simpl in Htr.
  destruct (exit_err r); simpl; rewrite Htr; simpl; case_decide; simpl;
    rewrite Ht, !executed_app, Hex1; simpl; by rewrite ?app_nil_r, <- ?app_assoc.
Qed.

(** X11. The child processes of one [runAgent]: git commands first, then
    the agent, at most once and as the last child; and the agent is there
    exactly when the log file was created, the worktrees were set up and
    the issue was marshalled. *)
Theorem agent_runs_last_if_at_all ws issue cfg w :
  ∃ gits agents,
    executed (trace (runAgent E ws issue cfg w)) = executed (trace w) ++ gits ++ agents ∧
    Forall (λ c, Path c = "git") gits ∧
    match os_Create (Filepath.Join ws "output.log") w with
    | (w1, None) =>
        match setupRepositoryWorktrees E ws (Key issue) cfg (agent_logger ws issue) w1 with
        | (_, None) =>
            match json_MarshalIndent E issue with
            | inl issueJSON => agents = [agent_cmd E ws (prompt_of issue issueJSON ws)]
            | inr _ => agents = []
            end
        | (_, Some _) => agents = []
        end
    | (_, Some _) => agents = [] ∧ gits = []
    end.
Proof. apply runAgent_children. Qed.

Lemma Clean_rooted path :
  GoStrings.HasPrefix_slash path = true →
  GoStrings.HasPrefix_slash (Filepath.Clean path) = true.
Proof.
  intros H. unfold Filepath.Clean. case_decide; [by subst|]. by rewrite H.
Qed.

Lemma Abs_rooted d path q :
  Filepath.IsAbs d = true → Filepath.Abs (Some d) path = Some q →
  Filepath.IsAbs q = true.
Proof.
  unfold Filepath.Abs, Filepath.IsAbs. intros Hd.
  destruct (GoStrings.HasPrefix_slash path) eqn:Hp.
  - intros [= <-]. by apply Clean_rooted.
  - intros [= <-]. unfold Filepath.Join. destruct d as [|c d]; [done|].
    rewrite decide_False by done. apply Clean_rooted. exact Hd.
Qed.

Lemma Abs_of_abs wd path :
  Filepath.IsAbs path = true → Filepath.Abs wd path = Some (Filepath.Clean path).
Proof. intros H. unfold Filepath.Abs. by rewrite H. Qed.

Lemma run_child_ok c w w' r :
  run_child E c w = (w', r) → exit_err r = None →
  chdir_errno c w = None ∧
  ∀ q, git_worktree_target c w = Some q → fs w' !! q = Some DirNode.
Proof.
  unfold run_child. destruct (chdir_errno c w) as [en|].
  { by intros [= <- <-]. }
  destruct (git_worktree_target c w) as [q|].
  2:{ intros _ _. by split. }
  destruct (fs w !! q) as [[|c0]|] eqn:Hq.
  - destruct (exit_err (process E (trace w) c)) eqn:Hx.
    + intros [= <- <-] Hr. by rewrite Hx in Hr.
    + intros [= <- <-] _. split; [done|]. intros q' [= <-]. simpl.
      apply lookup_insert_eq.
  - by intros [= <- <-].
  - destruct (exit_err (process E (trace w) c)) eqn:Hx.
    + intros [= <- <-] Hr. by rewrite Hx in Hr.
    + intros [= <- <-] _. split; [done|]. intros q' [= <-]. simpl.
      apply lookup_insert_eq.
Qed.

(** X12. When [createWorktree] returns nil, with an absolute working
    directory: the URL had two parts, the clone was a directory, and the
    worktree path that was given to git is a directory afterwards. *)
Theorem created_worktree_exists ws k repo logger w w' d :
  cwd w = Some d →
  Filepath.IsAbs d = true →
  createWorktree E ws k repo logger w = (w', None) →
  ∃ owner name absRepo absTree,
    GoStrings.SplitN_slash_2 (URL repo) = [owner; name] ∧
    Filepath.Abs (cwd w) (Filepath.Join "repos" name) = Some absRepo ∧
    Filepath.Abs (cwd w) (Filepath.Join ws name) = Some absTree ∧
    node_at w absRepo = Some DirNode ∧
    node_at w' absTree = Some DirNode.
Proof.
  intros Hcwd Hd. unfold createWorktree.
  destruct (GoStrings.SplitN_slash_2 (URL repo)) as [|owner [|name [|]]] eqn:Hs;
    try done.
  destruct (Filepath.Abs (cwd w) (Filepath.Join "repos" name)) as [absRepo|] eqn:Hr;
    [|done].
  destruct (Filepath.Abs (cwd w) (Filepath.Join ws name)) as [absTree|] eqn:Ht;
    [|done].
  assert (absRepo ≠ "") as Hne.
  { eapply Abs_nonempty; [|exact Hr]. by apply Join_nonempty_l. }
  assert (Filepath.IsAbs absTree = true) as Habs.
  { rewrite Hcwd in Ht. by eapply Abs_rooted. }
  assert (absTree ≠ "") as Hne'.
  { intros ->. done. }
  set (w0 := log InfoLevel
               (logger ++ [("repo", name); ("branch", branchName_of k);
                           ("worktreeDir", absTree)]) "creating git worktree" w).
  set (c := {| Path := "git";
               Args := ["worktree"; "add"; "-b"; branchName_of k; absTree; Branch repo];
               Dir := absRepo |}).
  unfold CombinedOutput.
  destruct (run_child E c w0) as [w1 r] eqn:Hrun.
  destruct (exit_err r) as [err|] eqn:Hexit; [done|]. intros [= <-].
  destruct (run_child_ok c w0 w1 r Hrun Hexit) as [Hchdir Htarget].
  assert (node_at w absRepo = Some DirNode) as Hnode.
  { revert Hchdir. unfold chdir_errno. simpl. rewrite decide_False by done.
    change (node_at w0 absRepo) with (node_at w absRepo).
    by destruct (node_at w absRepo) as [[|?]|]. }
  assert (git_worktree_target c w0 = Some (Filepath.Clean absTree)) as Hq.
  { unfold git_worktree_target. simpl.
    change (resolve w0 absRepo) with (resolve w absRepo).
    unfold node_at in Hnode. destruct (resolve w absRepo) as [d'|]; [|done]. simpl.
    by apply Abs_of_abs. }
  exists owner, name, absRepo, absTree. repeat split; try done.
  unfold node_at, resolve. rewrite decide_False by done. simpl.
  change (cwd w1) with (cwd w1).
  assert (cwd w1 = cwd w) as ->.
  { by destruct (run_child_evolves E any_ev c w0 I) as (Hc & _); rewrite Hrun in Hc. }
  rewrite (Abs_of_abs _ _ Habs). simpl. exact (Htarget _ Hq).
Qed.

End Worktrees.

(** ** More on the comment command *)

Section CommentCommand.
Context (E : Env).

(** X13. The comment command. Without client settings or without an issue
    key it fails with nothing done. Otherwise it submits exactly one
    comment, for the issue key of the settings and with the argument as
    text, and returns what the client returned: nil, or the client's error
    as it is. The file system is not touched. *)
Theorem comment_command_submits_once arg0 w :
  (NewJiraClient E ≠ None ∨ viper_GetString E "issue" = "" →
   (commentCmd_RunE E arg0 w).1 = w ∧ (commentCmd_RunE E arg0 w).2 ≠ None) ∧
  (NewJiraClient E = None → viper_GetString E "issue" ≠ "" →
   submitted (trace (commentCmd_RunE E arg0 w).1)
   = submitted (trace w) ++ [(viper_GetString E "issue", comment_payload arg0)] ∧
   (commentCmd_RunE E arg0 w).2
   = match Comment_Add E
             (trace w ++ [EvLog InfoLevel [("issue", viper_GetString E "issue")]
                            "adding comment to issue"])
             (viper_GetString E "issue") (comment_payload arg0) with
     | CommentOK _ => None
     | CommentErr err _ => Some err
     end ∧
   fs (commentCmd_RunE E arg0 w).1 = fs w).
Proof.
  unfold commentCmd_RunE. split.
  - intros [Hc|Hi].
    + by destruct (NewJiraClient E).
    + destruct (NewJiraClient E); [done|]. by rewrite decide_True.
  - intros -> Hi. rewrite decide_False by done. unfold addComment. simpl.
    destruct (Comment_Add E _ _ _) as [id|err [[status body]|]]; simpl;
      unfold submitted; rewrite <- ?app_assoc, !omap_app; simpl;
      by rewrite ?app_nil_r.
Qed.

End CommentCommand.

(** ** The further theorems on the small deployment *)

(** No setting is there: the host is the first to be missed. *)
Lemma NewJiraClient_ok_iff_witness :
  NewJiraClient Demo2.env_unset = Some (errorString "host is required").
Proof. exact (proj1 (proj2 (NewJiraClient_ok_iff Demo2.env_unset)) eq_refl). Defined.

(** [workspaces] is a file: the process exits with status 1. *)
Lemma exit_status_of_poll_witness :
  ∃ w', Execute_poll (Demo.env []) 5 [ticker_C] Demo2.w_workspaces_is_file
        = Some (w', Exited 1) ∧
        requested (trace w') = requested (trace Demo2.w_workspaces_is_file).
Proof.
  assert (∃ w', Execute_poll (Demo.env []) 5 [ticker_C] Demo2.w_workspaces_is_file
                = Some (w', Exited 1)) as [w' H].
  { eexists. vm_compute. reflexivity. }
  exists w'. split; [exact H|].
  destruct (exit_status_of_poll (Demo.env []) 5 [ticker_C] Demo2.w_workspaces_is_file
              w' (Exited 1) H) as [(_ & _ & Hreq & _)|[[Hst _]|[Hst _]]];
    [exact Hreq|discriminate Hst|discriminate Hst].
Defined.

(** One tick, a cancellation, and a tick that never happens. *)
Lemma cancellation_stops_polling_witness :
  pollForNewIssues_for (Demo.env [Demo.A1]) 5 "agent-assign" Demo.no_repos
    ([ticker_C] ++ ctx_Done :: [ticker_C]) Demo.w_ready
  = match pollForNewIssues_for (Demo.env [Demo.A1]) 5 "agent-assign" Demo.no_repos
            [ticker_C] Demo.w_ready with
    | Some (w1, _) => Some (log InfoLevel [] "polling stopped" w1, Returned None)
    | None => None
    end.
Proof.
  apply (cancellation_stops_polling (Demo.env [Demo.A1]) 5 "agent-assign" Demo.no_repos
           [ticker_C] [ticker_C] Demo.w_ready).
  intros H. apply list_elem_of_In in H. simpl in H. intuition discriminate.
Defined.

(** The workspaces directory is gone and the handler fails on [A-1]. *)
Lemma handleIssue_nil_iff_claimed_witness :
  fs (handleIssue Demo.A1 Demo.no_repos Demo.w_no_workspaces).1 = fs Demo.w_no_workspaces.
Proof.
  refine (proj1 (proj2 (handleIssue_nil_iff_claimed Demo.A1 Demo.no_repos
                          Demo.w_no_workspaces) _)).
  vm_compute. discriminate.
Defined.

(** An issue with an empty key, the workspaces directory being there. *)
Lemma empty_key_is_never_dispatched_witness :
  handleIssue Demo2.no_key Demo.no_repos Demo.w_ready
  = already_handled Demo2.no_key Demo.w_ready.
Proof.
  exact (empty_key_is_never_dispatched Demo2.no_key Demo.no_repos Demo.w_ready DirNode
           eq_refl eq_refl).
Defined.

(** One tick over the two pages. *)
Lemma tick_only_claims_witness :
  ∃ w', tick (Demo.env [Demo.A1; Demo.A2]) 5 "agent-assign" Demo.no_repos Demo.w_ready
        = Some w' ∧
        executed (trace w') = executed (trace Demo.w_ready).
Proof.
  assert (∃ w', tick (Demo.env [Demo.A1; Demo.A2]) 5 "agent-assign" Demo.no_repos
                  Demo.w_ready = Some w') as [w' H].
  { eexists. vm_compute. reflexivity. }
  exists w'. split; [exact H|].
  exact (proj1 (proj2 (proj2 (tick_only_claims (Demo.env [Demo.A1; Demo.A2]) 5
                                "agent-assign" Demo.no_repos Demo.w_ready w' H)))).
Defined.

(** Two ticks over the same two pages: three goroutines, not six. *)
Lemma poll_loop_goroutines_witness :
  ∃ w' r,
    pollForNewIssues (Demo.env [Demo.A1; Demo.A2]) 5 "agent-assign" Demo.one_repo
      [ticker_C; ticker_C] (Demo.world []) = Some (w', r) ∧
    pending w' = pending (Demo.world []) ++ spawned (trace w') ∧
    length (spawned (trace w')) = 3.
Proof.
  assert (∃ w' r,
            pollForNewIssues (Demo.env [Demo.A1; Demo.A2]) 5 "agent-assign" Demo.one_repo
              [ticker_C; ticker_C] (Demo.world []) = Some (w', r) ∧
            length (spawned (trace w')) = 3) as (w' & r & H & Hlen).
  { eexists _, _. split; [vm_compute; reflexivity|reflexivity]. }
  exists w', r. split; [exact H|]. split; [|exact Hlen].
  exact (proj2 (proj2 (poll_loop_goroutines (Demo.env [Demo.A1; Demo.A2]) 5
                         "agent-assign" Demo.one_repo [ticker_C; ticker_C]
                         (Demo.world []) w' r eq_refl H))).
Defined.

(** [A-1] was claimed by an earlier run of the process. *)
Lemma claims_survive_restart_witness :
  ∃ w' r,
    pollForNewIssues (Demo.env [Demo.A1; Demo.A2]) 5 "agent-assign" Demo.no_repos
      [ticker_C]
      {| cwd := cwd Demo.w_claimed; fs := fs Demo.w_claimed; trace := []; pending := [] |}
    = Some (w', r) ∧
    claimed w' "A-1".
Proof.
  assert (∃ w' r,
            pollForNewIssues (Demo.env [Demo.A1; Demo.A2]) 5 "agent-assign" Demo.no_repos
              [ticker_C]
              {| cwd := cwd Demo.w_claimed; fs := fs Demo.w_claimed; trace := [];
                 pending := [] |}
            = Some (w', r)) as (w' & r & H).
  { eexists _, _. vm_compute. reflexivity. }
  exists w', r. split; [exact H|].
  refine (proj1 (claims_survive_restart (Demo.env [Demo.A1; Demo.A2]) 5 "agent-assign"
                   Demo.no_repos [ticker_C] _ w' r "A-1" _ H)).
  exists "/app/workspaces/A-1". split; [reflexivity|]. vm_compute. eauto.
Defined.

(** The tracker with the endless cursor, and a thousand units of fuel. *)
Lemma endless_cursor_never_returns_witness :
  tick Demo2.env_endless 1000 "agent-assign" Demo.no_repos Demo.w_ready = None.
Proof.
  apply (endless_cursor_never_returns Demo2.env_endless "agent-assign" Demo.no_repos
           Demo.w_ready).
  intros t tok. exists "more". split; [reflexivity|discriminate].
Defined.

(** Two repositories, both clones in place. *)
Lemma worktrees_in_configuration_order_witness :
  ∃ cmds,
    executed (trace (setupRepositoryWorktrees (Demo.env []) "workspaces/A-1" "A-1"
                       Demo2.two_repos [] Demo2.w_two_clones).1)
    = executed (trace Demo2.w_two_clones) ++ cmds ∧
    Forall2 (λ repo c,
               worktree_command (cwd Demo2.w_two_clones) "workspaces/A-1" "A-1" repo
               = Some c)
      (Repositories Demo2.two_repos) cmds.
Proof.
  apply (proj2 (worktrees_in_configuration_order (Demo.env []) "workspaces/A-1" "A-1"
                  Demo2.two_repos [] Demo2.w_two_clones)).
  vm_compute. reflexivity.
Defined.

(** The worktree of [warp-server] for [A-1]. *)
Lemma created_worktree_exists_witness :
  ∃ w', createWorktree (Demo.env []) "workspaces/A-1" "A-1" Demo.warp_server []
          Demo2.w_two_clones = (w', None) ∧
        node_at w' "/app/workspaces/A-1/warp-server" = Some DirNode.
Proof.
  assert (∃ w', createWorktree (Demo.env []) "workspaces/A-1" "A-1" Demo.warp_server []
                  Demo2.w_two_clones = (w', None)) as [w' H].
  { eexists. vm_compute. reflexivity. }
  exists w'. split; [exact H|].
  destruct (created_worktree_exists (Demo.env []) "workspaces/A-1" "A-1"
              Demo.warp_server [] Demo2.w_two_clones w' "/app" eq_refl eq_refl H)
    as (owner & name & absRepo & absTree & Hs & _ & Ht & _ & Hnode).
  injection Hs as <- <-. injection Ht as <-. exact Hnode.
Defined.

(** The tracker rejects the comment: the command returns its error. *)
Lemma comment_command_submits_once_witness :
  (commentCmd_RunE Demo2.env_no_comments "done" Demo.w_ready).2
  = Some (errorString "403 Forbidden").
Proof.
  exact (proj1 (proj2 (proj2 (comment_command_submits_once Demo2.env_no_comments "done"
                                Demo.w_ready) eq_refl ltac:(discriminate)))).
Defined.

(** [warp-server] has no slash: it is rejected, and nothing is done. *)
Lemma url_check_asks_for_a_slash_witness :
  createWorktree (Demo.env []) "workspaces/A-1" "A-1" Demo.no_slash [] Demo.w_ready
  = (Demo.w_ready,
     Some (errorString ("invalid repository URL format: " +:+ URL Demo.no_slash))).
Proof.
  refine (proj1 (proj1 (url_check_asks_for_a_slash (Demo.env []) "workspaces/A-1" "A-1"
                          Demo.no_slash [] Demo.w_ready)) _).
  intros a b. by apply cut_slash_None.
Defined.

(** [A-1] is claimed and nothing is configured: the agent is the one child. *)
Lemma agent_runs_last_if_at_all_witness :
  ∃ gits agents,
    executed (trace (runAgent (Demo.env []) "workspaces/A-1" Demo.A1 Demo.no_repos
                       Demo.w_claimed))
    = executed (trace Demo.w_claimed) ++ gits ++ agents ∧
    Forall (λ c, Path c = "git") gits ∧ length agents = 1%nat.
Proof.
  destruct (agent_runs_last_if_at_all (Demo.env []) "workspaces/A-1" Demo.A1
              Demo.no_repos Demo.w_claimed) as (gits & agents & H1 & H2 & H3).
  exists gits, agents. split; [exact H1|]. split; [exact H2|].
  vm_compute in H3. by rewrite H3.
Defined.

(** ** The first version of the drain *)

Section JiraBotDrain.
Context (Post : list Event → list JiraBot.PostRequest → JiraBot.PostRequest
                → JiraBot.PostOutcome).

Lemma wrap_small z : (JiraBot.MinInt ≤ z ≤ JiraBot.MaxInt)%Z → JiraBot.wrap z = z.
Proof.
  unfold JiraBot.MinInt, JiraBot.MaxInt, JiraBot.wrap. intros H.
  rewrite Z.mod_small; lia.
Qed.

Lemma wrap_range z : (JiraBot.MinInt ≤ JiraBot.wrap z ≤ JiraBot.MaxInt)%Z.
Proof.
  unfold JiraBot.MinInt, JiraBot.MaxInt, JiraBot.wrap.
  pose proof (Z.mod_pos_bound (z + 2 ^ 63) (2 ^ 64) ltac:(lia)). lia.
Qed.

Lemma wrap_even z : (∃ k, z = 2 * k)%Z → (∃ k, JiraBot.wrap z = 2 * k)%Z.
Proof.
  intros [k ->]. unfold JiraBot.wrap.
  rewrite (Z.mod_eq (2 * k + 2 ^ 63) (2 ^ 64)) by lia.
  exists (k - 2 ^ 63 * ((2 * k + 2 ^ 63) / 2 ^ 64))%Z.
  change (2 ^ 64)%Z with (2 * 2 ^ 63)%Z. lia.
Qed.

Lemma int_add_small a b :
  (0 ≤ a)%Z → (0 ≤ b)%Z → (a + b ≤ JiraBot.MaxInt)%Z → JiraBot.int_add a b = (a + b)%Z.
Proof.
  intros Ha Hb Hab. apply wrap_small. unfold JiraBot.MinInt. lia.
Qed.

(** X14. The drain by offset ends when totals and pages are bounded and
    the offset cannot overflow. If no answer reports a total above [T] or
    holds more than [L] issues, and [T + L + 50] is no more than [MaxInt],
    then fuel for [T/50 + 2] requests is enough for [searchIssues] to
    return. *)
Theorem offset_drain_terminates fuel label cb b T L :
  (0 ≤ T)%Z →
  (∀ t sent req issues total,
     Post t sent req = JiraBot.PostOK issues total →
     (total ≤ T)%Z ∧ (Z.of_nat (length issues) ≤ L)%Z) →
  (T + L + 50 ≤ JiraBot.MaxInt)%Z →
  (T < 50 * (Z.of_nat fuel - 1))%Z →
  is_Some (JiraBot.searchIssues Post fuel label cb b).
Proof.
  intros HT Hbound Hmax Hfuel.
  assert (∀ fuel startAt total0 b,
            (0 ≤ startAt < T + 50)%Z → (T + 50 < startAt + 50 * Z.of_nat fuel)%Z →
            (1 ≤ Z.of_nat fuel)%Z →
            is_Some (JiraBot.searchIssues_for Post fuel (jql_of label) cb startAt total0 b))
    as Hfor.
  { clear fuel b Hfuel. induction fuel as [|fuel IH]; intros startAt total0 b H0 Hlt H1;
      [lia|].
    simpl. destruct (Post _ _ _) as [issues total|err] eqn:HP; [|eauto].
    destruct (searchIssues_range cb issues _) as [w [err|]]; [eauto|].
    destruct (Hbound _ _ _ _ _ HP) as [Hle HL].
    rewrite (int_add_small startAt (Z.of_nat (length issues))) by lia.
    case_decide as Hge; [eauto|].
    rewrite (int_add_small startAt JiraBot.pageSize) by (unfold JiraBot.pageSize; lia).
    apply IH; unfold JiraBot.pageSize; lia. }
  unfold JiraBot.searchIssues.
  destruct (Hfor fuel 0%Z 0%Z b) as [[b' [err|total]] ->]; [lia..| |]; eauto.
Qed.

(** X17. The bound on the total is needed: the offset can overflow.
    Against a tracker that answers every request with an empty page and
    the total [MaxInt], the offset, a multiple of two that wraps around
    into a multiple of two, never reaches the odd total: no amount of fuel
    lets [searchIssues] return. *)
Theorem offset_overflow_never_returns label cb b :
  (∀ t sent req, Post t sent req = JiraBot.PostOK [] JiraBot.MaxInt) →
  ∀ fuel, JiraBot.searchIssues Post fuel label cb b = None.
Proof.
  intros Hfull fuel.
  assert (∀ startAt total0 b,
            (JiraBot.MinInt ≤ startAt ≤ JiraBot.MaxInt)%Z → (∃ k, startAt = 2 * k)%Z →
            JiraBot.searchIssues_for Post fuel (jql_of label) cb startAt total0 b = None)
    as Hfor.
  { induction fuel as [|fuel IH]; intros startAt total0 b0 Hr Hev; [done|].
    cbn [JiraBot.searchIssues_for]. rewrite Hfull.
    cbn [searchIssues_range length Z.of_nat].
    change (Z.of_nat 0) with 0%Z.
    assert (JiraBot.int_add startAt 0 = startAt) as Heq.
    { unfold JiraBot.int_add. rewrite Z.add_0_r. by apply wrap_small. }
    rewrite Heq, decide_False.
    - apply IH; [apply wrap_range|]. apply wrap_even.
      destruct Hev as [k ->]. exists (k + 25)%Z. unfold JiraBot.pageSize. lia.
    - destruct Hev as [k ->]. unfold JiraBot.MinInt, JiraBot.MaxInt in *. lia. }
  unfold JiraBot.searchIssues. rewrite Hfor; [done| |by exists 0%Z].
  unfold JiraBot.MinInt, JiraBot.MaxInt. lia.
Qed.

Lemma offsets_S n : JiraBot.offsets (S n) = JiraBot.offsets n ++ [(50 * Z.of_nat n)%Z].
Proof. unfold JiraBot.offsets. by rewrite seq_S, fmap_app. Qed.

(** The loop from offset [n] on, against a tracker that serves [held]. *)
Lemma offset_drain_from held jql cb fuel n total0 b :
  JiraBot.serves held Post →
  (Z.of_nat (length held) ≤ JiraBot.MaxInt)%Z → (n ≤ length held)%nat →
  (0 ≤ total0)%Z → (total0 + Z.of_nat (length (drop n held)) ≤ JiraBot.MaxInt)%Z →
  (length (drop n held) ≤ 50 * fuel)%nat → (1 ≤ fuel)%nat →
  ∃ sent,
    JiraBot.searchIssues_for Post fuel jql cb (Z.of_nat n) total0 b
    = Some ({| JiraBot.world := (searchIssues_range cb (drop n held)
                                   (JiraBot.world b)).1;
               JiraBot.posts := JiraBot.posts b ++ sent |},
            match (searchIssues_range cb (drop n held) (JiraBot.world b)).2 with
            | Some err => inl err
            | None => inr (total0 + Z.of_nat (length (drop n held)))%Z
            end) ∧
    Forall (λ req, JiraBot.p_jql req = jql ∧ JiraBot.MaxResults req = 50%Z ∧
                   ∃ j : nat, JiraBot.StartAt req = (Z.of_nat n + 50 * Z.of_nat j)%Z)
      sent.
Proof.
  intros Hsrv Hmax. revert n total0 b.
  induction fuel as [|fuel IH]; intros n total0 b Hn Ht0 Ht Hlen H1; [lia|].
  cbn [JiraBot.searchIssues_for]. rewrite Hsrv.
  cbn [JiraBot.StartAt JiraBot.MaxResults JiraBot.world JiraBot.posts].
  rewrite Nat2Z.id. replace (Z.to_nat JiraBot.pageSize) with 50%nat by done.
  set (rest := drop n held) in *.
  set (req := {| JiraBot.p_jql := jql; JiraBot.p_arg3 := [];
                 JiraBot.p_arg4 := ["summary"; "status"];
                 JiraBot.StartAt := Z.of_nat n; JiraBot.MaxResults := JiraBot.pageSize |}).
  assert (JiraBot.p_jql req = jql ∧ JiraBot.MaxResults req = 50%Z ∧
          ∃ j : nat, JiraBot.StartAt req = (Z.of_nat n + 50 * Z.of_nat j)%Z) as Hreq.
  { repeat split. exists 0%nat. simpl. lia. }
  assert (length rest = length held - n)%nat as Hrest.
  { subst rest. by rewrite length_drop. }
  assert (length (take 50 rest) ≤ length rest)%nat as Hpage.
  { rewrite length_take. lia. }
  rewrite (int_add_small (Z.of_nat n) (Z.of_nat (length (take 50 rest)))) by lia.
  rewrite (int_add_small total0 (Z.of_nat (length (take 50 rest)))) by lia.
  assert (searchIssues_range cb rest (JiraBot.world b)
          = match searchIssues_range cb (take 50 rest) (JiraBot.world b) with
            | (w1, None) => searchIssues_range cb (drop 50 rest) w1
            | r => r
            end) as Hsplit.
  { rewrite <- searchIssues_range_app. by rewrite take_drop. }
  rewrite Hsplit.
  destruct (searchIssues_range cb (take 50 rest) (JiraBot.world b)) as [w [err|]] eqn:Hr.
  { exists [req]. split; [done|]. by constructor. }
  case_decide as Hge.
  - (* the last page *)
    assert (drop 50 rest = []) as Hnil.
    { apply drop_ge. rewrite length_take in Hge. lia. }
    rewrite Hnil. cbn [searchIssues_range fst snd].
    exists [req]. split; [|by constructor]. do 3 f_equal.
    rewrite <- (take_drop 50 rest) at 2. rewrite Hnil, app_nil_r. done.
  - assert (50 < length rest)%nat as Hmore.
    { rewrite length_take in Hge. lia. }
    assert (drop 50 rest = drop (n + 50) held) as Hdrop.
    { subst rest. by rewrite drop_drop. }
    rewrite (int_add_small (Z.of_nat n) JiraBot.pageSize)
      by (unfold JiraBot.pageSize; lia).
    replace (Z.of_nat n + JiraBot.pageSize)%Z with (Z.of_nat (n + 50))
      by (unfold JiraBot.pageSize; lia).
    assert (length (take 50 rest) = 50)%nat as H50.
    { rewrite length_take. lia. }
    destruct (IH (n + 50)%nat (total0 + Z.of_nat (length (take 50 rest)))%Z
                {| JiraBot.world := w; JiraBot.posts := JiraBot.posts b ++ [req] |})
      as (sent & Heq & HF).
    { lia. }
    { lia. }
    { rewrite <- Hdrop, length_drop. lia. }
    { rewrite <- Hdrop, length_drop. lia. }
    { destruct fuel; [|lia]. lia. }
    rewrite Heq. cbn [JiraBot.world JiraBot.posts]. rewrite <- Hdrop.
    exists (req :: sent). split.
    + rewrite <- app_assoc. simpl. do 2 f_equal.
      destruct (searchIssues_range cb (drop 50 rest) w).2; [done|].
      f_equal. rewrite <- (take_drop 50 rest) at 3. rewrite length_app. lia.
    + constructor; [done|].
      eapply Forall_impl; [exact HF|]. intros r (? & ? & j & Hj).
      repeat split; try done. exists (S j). rewrite Hj. lia.
Qed.

(** X15. Against a tracker that serves its issues as asked, the drain by
    offset is the callback run over all of them, once each and in order:
    the world at the end is that of the one loop over the whole list, the
    result is that loop's error or nil, and on nil the logged total is the
    number of issues. Every request asks for 50 issues at a multiple of 50.
    The number of issues is an [int], as the length of a slice is. *)
Theorem offset_drain_visits_all held label cb fuel b :
  JiraBot.serves held Post →
  (Z.of_nat (length held) ≤ JiraBot.MaxInt)%Z →
  (length held ≤ 50 * fuel)%nat → (1 ≤ fuel)%nat →
  ∃ b' sent,
    JiraBot.searchIssues Post fuel label cb b
    = Some (b', (searchIssues_range cb held (JiraBot.world b)).2) ∧
    JiraBot.posts b' = JiraBot.posts b ++ sent ∧
    Forall (λ req, JiraBot.p_jql req = jql_of label ∧ JiraBot.MaxResults req = 50%Z ∧
                   ∃ j, JiraBot.StartAt req = (50 * Z.of_nat j)%Z) sent ∧
    JiraBot.world b'
    = match (searchIssues_range cb held (JiraBot.world b)).2 with
      | Some _ => (searchIssues_range cb held (JiraBot.world b)).1
      | None =>
          log InfoLevel [("label", label); ("total", pretty (Z.of_nat (length held)))]
            "finished processing issues"
            (searchIssues_range cb held (JiraBot.world b)).1
      end.
Proof.
  intros Hsrv Hmax Hlen H1.
  destruct (offset_drain_from held (jql_of label) cb fuel 0 0%Z b Hsrv Hmax)
    as (sent & Heq & HF); [lia|done|by rewrite drop_0|by rewrite drop_0|done|].
  rewrite drop_0 in Heq. unfold JiraBot.searchIssues.
  change (Z.of_nat 0) with 0%Z in Heq. rewrite Heq.
  assert (Forall (λ req, JiraBot.p_jql req = jql_of label ∧
                         JiraBot.MaxResults req = 50%Z ∧
                         ∃ j, JiraBot.StartAt req = (50 * Z.of_nat j)%Z) sent) as HF'.
  { eapply Forall_impl; [exact HF|]. intros req (? & ? & j & Hj).
    repeat split; try done. exists j. rewrite Hj. lia. }
  destruct (searchIssues_range cb held (JiraBot.world b)) as [w [err|]]; simpl.
  - by eexists _, sent.
  - by eexists _, sent.
Qed.

End JiraBotDrain.

(** 120 issues, 50 to a page: three requests, and a total of 120. *)
Lemma offset_drain_visits_all_witness :
  ∃ b' sent,
    JiraBot.searchIssues JiraBot.tracker_120 3 "agent-assign"
      (λ issue, handleIssue issue Demo.no_repos) JiraBot.start
    = Some (b', (searchIssues_range (λ issue, handleIssue issue Demo.no_repos)
                   JiraBot.held_120 (JiraBot.world JiraBot.start)).2) ∧
    JiraBot.posts b' = JiraBot.posts JiraBot.start ++ sent.
Proof.
  destruct (offset_drain_visits_all JiraBot.tracker_120 JiraBot.held_120 "agent-assign"
              (λ issue, handleIssue issue Demo.no_repos) 3 JiraBot.start)
    as (b' & sent & H1 & H2 & _).
  - intros t sent req. reflexivity.
  - vm_compute. discriminate.
  - vm_compute. lia.
  - lia.
  - exists b', sent. split; [exact H1|exact H2].
Defined.

(** A tracker that reports 70 and gives one issue a page: four units of
    fuel are enough. *)
Lemma offset_drain_terminates_witness :
  is_Some (JiraBot.searchIssues JiraBot.tracker_short 4 "agent-assign"
             (λ issue, handleIssue issue Demo.no_repos) JiraBot.start).
Proof.
  apply (offset_drain_terminates JiraBot.tracker_short 4 "agent-assign" _ _ 70%Z 1%Z).
  - lia.
  - intros t sent req issues total [= <- <-]. simpl. lia.
  - vm_compute. discriminate.
  - lia.
Defined.

(** The tracker that reports the largest total: seven requests, and more
    to come. *)
Lemma offset_overflow_never_returns_witness :
  JiraBot.searchIssues JiraBot.tracker_full 7 "agent-assign"
    (λ issue, handleIssue issue Demo.no_repos) JiraBot.start = None.
Proof.
  exact (offset_overflow_never_returns JiraBot.tracker_full "agent-assign" _
           JiraBot.start (λ _ _ _, eq_refl) 7).
Defined.

(** ** At most one agent for a workspace *)

Section Dispatch.
Context (E : Env).

Lemma agent_dirs_app t1 t2 : agent_dirs (t1 ++ t2) = agent_dirs t1 ++ agent_dirs t2.
Proof. unfold agent_dirs. by rewrite executed_app, filter_app, fmap_app. Qed.

Lemma agent_dirs_no_agent t : Forall no_agent t → agent_dirs t = [].
Proof.
  induction 1 as [|ev t Hev _ IH]; [done|].
  change (ev :: t) with ([ev] ++ t). rewrite agent_dirs_app, IH, app_nil_r.
  destruct ev; try done. unfold agent_dirs. simpl.
  by rewrite filter_cons_False.
Qed.

Lemma dispatch_inv_evolves w w' :
  evolves no_agent w w' → pending w' = pending w → dispatch_inv w → dispatch_inv w'.
Proof.
  intros Hev Hp [Hnd Hex].
  assert (agent_dirs (trace w') = agent_dirs (trace w)) as Hd.
  { destruct Hev as (_ & _ & t & -> & Ht).
    by rewrite agent_dirs_app, (agent_dirs_no_agent t Ht), app_nil_r. }
  unfold dispatch_inv. rewrite Hd, Hp. split; [done|].
  intros d Hin. destruct (Hex d Hin) as (q & Hq & Hs). exists q. split.
  - by rewrite (resolve_evolves _ _ _ _ Hev).
  - destruct Hev as (_ & Hf & _). by eapply fs_grows_is_Some.
Qed.

Lemma os_Create_pending path w : pending (os_Create path w).1 = pending w.
Proof.
  unfold os_Create. destruct (resolve w path) as [q|]; [|done].
  destruct (fs w !! q) as [[|c]|]; try done. by destruct (parent_errno w q).
Qed.

Lemma run_child_pending c w : pending (run_child E c w).1 = pending w.
Proof.
  unfold run_child. destruct (chdir_errno c w); [done|].
  destruct (git_worktree_target c w) as [q|]; [|done].
  destruct (fs w !! q) as [[|c0]|]; try done;
    by destruct (exit_err (process E (trace w) c)).
Qed.

Lemma createWorktree_pending ws k repo logger w :
  pending (createWorktree E ws k repo logger w).1 = pending w.
Proof.
  unfold createWorktree.
  destruct (GoStrings.SplitN_slash_2 (URL repo)) as [|? [|name [|]]]; try done.
  destruct (Filepath.Abs (cwd w) _) as [absRepo|]; [|done].
  destruct (Filepath.Abs (cwd w) _) as [absTree|]; [|done].
  unfold CombinedOutput.
  match goal with |- context [run_child E ?c ?w0] =>
    pose proof (run_child_pending c w0) as Hrun;
    destruct (run_child E c w0) as [w1 r] end.
  simpl in Hrun. by destruct (exit_err r).
Qed.

Lemma setupRepositoryWorktrees_pending ws k cfg logger w :
  pending (setupRepositoryWorktrees E ws k cfg logger w).1 = pending w.
Proof.
  unfold setupRepositoryWorktrees. case_decide; [done|].
  generalize (Repositories cfg). intros repos. revert w.
  induction repos as [|repo rest IH]; intros w; [done|]. simpl.
  pose proof (createWorktree_pending ws k repo logger w) as H1.
  destruct (createWorktree E ws k repo logger w) as [w1 [err|]]; simpl in *; [done|].
  by rewrite IH.
Qed.

Lemma runAgent_pending ws issue cfg w : pending (runAgent E ws issue cfg w) = pending w.
Proof.
  unfold runAgent.
  pose proof (os_Create_pending (Filepath.Join ws "output.log") w) as H1.
  destruct (os_Create _ w) as [w1 [err|]]; simpl in H1; [done|].
  match goal with |- context [setupRepositoryWorktrees E ?a ?b ?c ?d ?e] =>
    pose proof (setupRepositoryWorktrees_pending a b c d e) as H2;
    destruct (setupRepositoryWorktrees E a b c d e) as [w2 [err|]] end;
    simpl in H2; [by rewrite <- H1|].
  destruct (json_MarshalIndent E issue) as [issueJSON|err]; [|by rewrite <- H1].
  unfold Run.
  match goal with |- context [run_child E ?c ?w0] =>
    pose proof (run_child_pending c w0) as Hrun;
    destruct (run_child E c w0) as [w3 r] end.
  simpl in Hrun.
  assert (pending w3 = pending w) as H3.
  { rewrite Hrun. simpl. case_decide; simpl; by rewrite H2. }
  by destruct (exit_err r).
Qed.

Lemma handler_no_agent ev : handler_ev ev → no_agent ev.
Proof. by destruct ev. Qed.

Lemma dispatch_inv_record ev w :
  drain_own_ev "" ev ∨ (∃ label, drain_own_ev label ev) → dispatch_inv w →
  dispatch_inv (record ev w).
Proof.
  intros Hev. apply (dispatch_inv_evolves w); [|done].
  apply evolves_record. destruct Hev as [H|[label H]]; by destruct ev.
Qed.

Lemma handleIssue_dispatch_inv issue cfg w :
  dispatch_inv w → dispatch_inv (handleIssue issue cfg w).1.
Proof.
  intros Hinv.
  pose proof (handleIssue_evolves issue cfg w) as Hev.
  destruct (handleIssue_effect issue cfg w)
    as [(_ & _ & Hp)|(q & g & Hn & Hq & Hfs & [Hg _] & _ & _ & _ & Hp)].
  { apply (dispatch_inv_evolves w); [|done|done].
    eapply evolves_mono; [apply handler_no_agent|exact Hev]. }
  destruct Hinv as [Hnd Hex].
  assert (agent_dirs (trace (handleIssue issue cfg w).1) = agent_dirs (trace w)) as Hd.
  { destruct Hev as (_ & _ & t & -> & Ht).
    rewrite agent_dirs_app, (agent_dirs_no_agent t), app_nil_r; [done|].
    eapply Forall_impl; [exact Ht|apply handler_no_agent]. }
  assert (g_workspaceDir g ∉ agent_dirs (trace w) ++ (g_workspaceDir <$> pending w))
    as Hfresh.
  { intros Hin. destruct (Hex _ Hin) as (q' & Hq' & Hs).
    rewrite Hq in Hq'. injection Hq' as <-. rewrite Hn in Hs. by destruct Hs. }
  unfold dispatch_inv. rewrite Hd, Hp, fmap_app, app_assoc. simpl. split.
  - apply NoDup_app. split; [done|]. split; [|apply NoDup_singleton].
    intros d Hd1 Hd2. apply list_elem_of_singleton in Hd2. by subst d.
  - intros d Hin. apply elem_of_app in Hin as [Hin|Hin].
    + destruct (Hex d Hin) as (q' & Hq' & Hs). exists q'. split.
      * by rewrite (resolve_evolves _ _ _ _ Hev).
      * destruct Hev as (_ & Hf & _). by eapply fs_grows_is_Some.
    + apply list_elem_of_singleton in Hin. subst d. exists q. split.
      * by rewrite (resolve_evolves _ _ _ _ Hev).
      * rewrite Hfs, lookup_insert_eq. eauto.
Qed.

Lemma run_goroutine_dispatch_inv g before after w :
  pending w = before ++ g :: after →
  dispatch_inv w → dispatch_inv (run_goroutine E g before after w).
Proof.
  intros Hp [Hnd Hex]. unfold run_goroutine.
  set (w1 := {| cwd := cwd w; fs := fs w; trace := trace w; pending := before ++ after |}).
  set (w' := runAgent E (g_workspaceDir g) (g_issue g) (g_reposConfig g) w1).
  assert (evolves agent_ev w w') as Hev.
  { eapply evolves_trans; [apply (evolves_pending _ w (before ++ after))|].
    apply runAgent_evolves. }
  assert (pending w' = before ++ after) as Hp'.
  { unfold w'. by rewrite runAgent_pending. }
  (* the directories of the agent after the run *)
  assert (agent_dirs (trace w') = agent_dirs (trace w) ∨
          agent_dirs (trace w') = agent_dirs (trace w) ++ [g_workspaceDir g]) as Hd.
  { destruct (runAgent_children E (g_workspaceDir g) (g_issue g) (g_reposConfig g) w1)
      as (gits & agents & Hex' & Hgit & Hag).
    fold w' in Hex'.
    assert (agents = [] ∨ ∃ prompt, agents = [agent_cmd E (g_workspaceDir g) prompt])
      as Hcases.
    { destruct (os_Create _ w1) as [? [?|]]; [left; apply Hag|].
      destruct (setupRepositoryWorktrees E _ _ _ _ _) as [? [?|]]; [by left|].
      destruct (json_MarshalIndent E _); [right; eauto|by left]. }
    unfold agent_dirs. rewrite Hex'. rewrite !filter_app, !fmap_app.
    assert (filter (λ c, Path c = "warp-cli-dev") gits = []) as ->.
    { clear -Hgit. induction Hgit as [|c l Hc _ IH]; [done|].
      rewrite filter_cons_False; [done|]. by rewrite Hc. }
    destruct Hcases as [->|[prompt ->]].
    - left. simpl. by rewrite app_nil_r.
    - right. rewrite filter_cons_True by done. done. }
  (* the old list, with the goroutine taken out of the middle *)
  rewrite Hp, fmap_app, fmap_cons in Hnd, Hex.
  assert (NoDup (g_workspaceDir g ::
                 agent_dirs (trace w) ++ (g_workspaceDir <$> before)
                 ++ (g_workspaceDir <$> after))) as Hnd'.
  { pose proof Hnd as Hnd0. by rewrite <- !Permutation_middle in Hnd0. }
  apply NoDup_cons in Hnd' as [Hnotin Hrest].
  assert (∀ d, d ∈ agent_dirs (trace w') ++ (g_workspaceDir <$> pending w') →
               d ∈ agent_dirs (trace w) ++ (g_workspaceDir <$> before)
                   ++ g_workspaceDir g :: (g_workspaceDir <$> after)) as Hsub.
  { intros d. rewrite Hp', fmap_app.
    destruct Hd as [Hd|Hd]; rewrite Hd;
      rewrite !elem_of_app, ?elem_of_cons, ?elem_of_nil; tauto. }
  split.
  - rewrite Hp', fmap_app. destruct Hd as [Hd|Hd]; rewrite Hd; [done|].
    rewrite <- app_assoc. simpl. rewrite <- Permutation_middle.
    apply NoDup_cons. by split.
  - intros d Hin. destruct (Hex d (Hsub d Hin)) as (q & Hq & Hs). exists q. split.
    + by rewrite (resolve_evolves _ _ _ _ Hev).
    + destruct Hev as (_ & Hf & _). by eapply fs_grows_is_Some.
Qed.

Lemma searchIssues_keeps label (Inv : World → Prop) cb fuel w w' r :
  (∀ ev x, drain_own_ev label ev → Inv x → Inv (record ev x)) →
  (∀ i x, Inv x → Inv (cb i x).1) →
  Inv w → searchIssues E fuel label cb w = Some (w', r) → Inv w'.
Proof.
  intros Hrec Hcb Hw. unfold searchIssues.
  assert (Inv (log InfoLevel [("label", label)] "Searching for Jira issues" w)) as H0.
  { by apply (Hrec (EvLog _ _ _)). }
  destruct (searchIssues_for E fuel _ _ "" _) as [[w1 [err|]]|] eqn:Hfor; [| |done].
  - intros [= <- <-].
    by eapply (searchIssues_for_keeps E label Inv); [| |exact H0|exact Hfor].
  - intros [= <- <-]. apply (Hrec (EvLog _ _ _)); [done|].
    by eapply (searchIssues_for_keeps E label Inv); [| |exact H0|exact Hfor].
Qed.

Lemma step_dispatch_inv w w' : step E w w' → dispatch_inv w → dispatch_inv w'.
Proof.
  intros [issue cfg w0|fuel label cfg w0 w1 r Hs|g b a w0 Hp] Hinv.
  - by apply handleIssue_dispatch_inv.
  - eapply (searchIssues_keeps label dispatch_inv); [| |exact Hinv|exact Hs].
    + intros ev x Hev. apply dispatch_inv_record. right. by exists label.
    + intros i x Hx. exact (handleIssue_dispatch_inv i cfg x Hx).
  - by apply run_goroutine_dispatch_inv.
Qed.

(** X16. At most one agent for a workspace. From a world with no pending
    goroutine and no agent started, after any run of the process (handler
    calls, whole drains, goroutines run in any order): the agent binary was
    started in pairwise different directories, none of which is the
    directory of a goroutine still pending, and each of these directories
    exists. *)
Theorem agent_dispatched_at_most_once w0 w :
  pending w0 = [] →
  agent_dirs (trace w0) = [] →
  rtc (step E) w0 w →
  NoDup (agent_dirs (trace w) ++ (g_workspaceDir <$> pending w)) ∧
  ∀ d, d ∈ agent_dirs (trace w) ++ (g_workspaceDir <$> pending w) →
       ∃ q, resolve w d = Some q ∧ is_Some (fs w !! q).
Proof.
  intros Hp Hd Hrtc.
  assert (dispatch_inv w0) as H0.
  { unfold dispatch_inv. rewrite Hp, Hd. split; [constructor|].
    intros d Hin. by apply elem_of_nil in Hin. }
  clear Hp Hd. induction Hrtc as [|w1 w2 w3 H12 _ IH]; [exact H0|].
  apply IH. by eapply step_dispatch_inv.
Qed.

End Dispatch.

(** [A-1] and [A-2] are claimed, and the goroutine of [A-2] runs first. *)
Lemma agent_dispatched_at_most_once_witness :
  ∃ w, rtc (step (Demo.env [])) Demo.w_ready w ∧
       agent_dirs (trace w) = ["workspaces/A-2"] ∧
       NoDup (agent_dirs (trace w) ++ (g_workspaceDir <$> pending w)).
Proof.
  set (w1 := (handleIssue Demo.A1 Demo.no_repos Demo.w_ready).1).
  set (w2 := (handleIssue Demo.A2 Demo.no_repos w1).1).
  set (g1 := {| g_workspaceDir := "workspaces/A-1"; g_issue := Demo.A1;
                g_reposConfig := Demo.no_repos |}).
  set (g2 := {| g_workspaceDir := "workspaces/A-2"; g_issue := Demo.A2;
                g_reposConfig := Demo.no_repos |}).
  assert (rtc (step (Demo.env [])) Demo.w_ready
            (run_goroutine (Demo.env []) g2 [g1] [] w2)) as Hrtc.
  { eapply rtc_l; [apply (step_handle _ Demo.A1 Demo.no_repos)|].
    eapply rtc_l; [apply (step_handle _ Demo.A2 Demo.no_repos)|].
    apply rtc_once. apply (step_go _ g2 [g1] [] w2). reflexivity. }
  exists (run_goroutine (Demo.env []) g2 [g1] [] w2).
  split; [exact Hrtc|]. split; [vm_compute; reflexivity|].
  exact (proj1 (agent_dispatched_at_most_once (Demo.env []) Demo.w_ready _
                  eq_refl eq_refl Hrtc)).
Defined.
